(** * note-mixer-relay: the admission-and-mixing pipeline of [main.go]

    A shallow embedding of the relay's event pipeline: configuration
    loading, the two admission policies, the mixing transform with its
    signing step, persistence, local fan-out and the peer rebroadcast, and
    the HTTP submission handler.

    Code that lives outside the repository (the clock, the signing
    primitives of go-nostr, the sqlite3 event store, the network, the two
    policies taken from khatru) is a field of the record [Externals]: an
    oracle whose answer may depend on everything that happened before. Every
    call of such a collaborator is logged in a trace of [Action]s, in call
    order; the functions of [main.go] thread that trace. *)

From stdpp Require Import base strings list gmap pretty.
From Stdlib Require Import Ascii ZArith Lia.

Local Open Scope Z_scope.

(** ** Go's standard library, as far as [main.go] uses it *)

Module GoStrings.

(** [strings.Split(s, sep)] for a one-byte separator ([main.go] only ever
    splits on a comma): one more field than there are separators. *)
Fixpoint Split (s : string) (sep : ascii) : list string :=
  match s with
  | EmptyString => [EmptyString]
  | String c rest =>
      if Ascii.eqb c sep then EmptyString :: Split rest sep
      else match Split rest sep with
           | field :: fields => String c field :: fields
           | [] => [String c EmptyString]
           end
  end.

Definition bytes (l : list N) : string :=
  String.string_of_list_ascii (List.map ascii_of_N l).

(** The UTF-8 encodings of the code points with the Unicode White_Space
    property, which is what [unicode.IsSpace] tests: tab, LF, VT, FF, CR,
    space, U+0085, U+00A0, U+1680, U+2000..U+200A, U+2028, U+2029,
    U+202F, U+205F, U+3000. *)
Definition spaces : list string :=
  List.map bytes
    [ [9]; [10]; [11]; [12]; [13]; [32];
      [194; 133]; [194; 160]; [225; 154; 128];
      [226; 128; 128]; [226; 128; 129]; [226; 128; 130]; [226; 128; 131];
      [226; 128; 132]; [226; 128; 133]; [226; 128; 134]; [226; 128; 135];
      [226; 128; 136]; [226; 128; 137]; [226; 128; 138];
      [226; 128; 168]; [226; 128; 169]; [226; 128; 175];
      [226; 129; 159]; [227; 128; 128] ]%N.

Fixpoint strip_prefix (p s : string) : option string :=
  match p, s with
  | EmptyString, _ => Some s
  | String a p', String b s' =>
      if Ascii.eqb a b then strip_prefix p' s' else None
  | String _ _, EmptyString => None
  end.

Fixpoint strip_any (ps : list string) (s : string) : option string :=
  match ps with
  | [] => None
  | p :: ps' =>
      match strip_prefix p s with
      | Some rest => Some rest
      | None => strip_any ps' s
      end
  end.

(** Drop leading runes found in [ps]; [fuel] bounds the number of runes. *)
Fixpoint trim_left (ps : list string) (fuel : nat) (s : string) : string :=
  match fuel with
  | O => s
  | S fuel' =>
      match strip_any ps s with
      | Some rest => trim_left ps fuel' rest
      | None => s
      end
  end.

Definition TrimLeftSpace (s : string) : string :=
  trim_left spaces (String.length s) s.

Definition TrimRightSpace (s : string) : string :=
  String.rev (trim_left (List.map String.rev spaces) (String.length s)
                (String.rev s)).

(** [strings.TrimSpace]: leading and trailing white space removed. *)
Definition TrimSpace (s : string) : string :=
  TrimRightSpace (TrimLeftSpace s).

End GoStrings.

Module GoStrconv.

Definition digit (c : ascii) : option Z :=
  let n := Z.of_N (N_of_ascii c) in
  if (48 <=? n)%Z && (n <=? 57)%Z then Some (n - 48) else None.

Fixpoint digits (acc : Z) (s : string) : option Z :=
  match s with
  | EmptyString => Some acc
  | String c rest =>
      match digit c with
      | Some d => digits (10 * acc + d) rest
      | None => None
      end
  end.

Definition unsigned (s : string) : option Z :=
  match s with
  | EmptyString => None
  | _ => digits 0 s
  end.

(** [strconv.Atoi] on a 64-bit platform: an optional sign, then one or
    more decimal digits; [None] stands for the syntax and the range
    errors. *)
Definition Atoi (s : string) : option Z :=
  match s with
  | EmptyString => None
  | String c rest =>
      if Ascii.eqb c "-"%char then
        match unsigned rest with
        | Some n => if (n <=? 2 ^ 63)%Z then Some (- n) else None
        | None => None
        end
      else
        match unsigned (if Ascii.eqb c "+"%char then rest else s) with
        | Some n => if (n <? 2 ^ 63)%Z then Some n else None
        | None => None
        end
  end.

End GoStrconv.

(** ** Errors

    A Go [error] is its message, plus the error it wraps when it was built
    by [fmt.Errorf] with the verb [%w]. *)

Inductive error : Type :=
| ErrorString (msg : string)
| WrapError (msg : string) (inner : error).

Definition Error (e : error) : string :=
  match e with
  | ErrorString msg => msg
  | WrapError msg _ => msg
  end.

Definition Unwrap (e : error) : option error :=
  match e with
  | ErrorString _ => None
  | WrapError _ inner => Some inner
  end.

(** [fmt.Errorf(prefix + "%w", err)] *)
Definition Errorf_w (prefix : string) (err : error) : error :=
  WrapError (prefix +:+ Error err) err.

(** ** Data model *)

(** [nostr.Event] *)
Record Event : Type := mkEvent {
  ID : string;
  PubKey : string;
  CreatedAt : Z;
  Kind : Z;
  Tags : list (list string);
  Content : string;
  Sig : string
}.

(** The struct [Config] of [main.go]. *)
Record Config : Type := mkConfig {
  RelayName : string;
  RelayPubkey : string;
  RelayPrivateKey : string;
  RelayIcon : string;
  RelayDescription : string;
  AllowedKinds : list Z;
  DBPath : string;
  Port : string;
  WhitelistedPubkeys : gmap string bool;
  RebroadcastRelays : list string
}.

(** [context.Context], as far as a policy can read it: the remote address. *)
Record Context : Type := mkContext { ctx_remote : string }.

(** A khatru [RejectEvent] policy: reject flag and reason. *)
Definition Policy : Type := Context → Event → bool * string.

(** Every call that leaves the process or reads the clock. *)
Inductive Action : Type :=
| ATimeNow (t : Z)
| ASaveEvent (e : Event) (r : option error)
| ABroadcastEvent (e : Event)
| AGoRebroadcast (e : Event) (relays : list string)
| ARelayConnect (url : string) (r : option error)
| APublish (url : string) (e : Event) (r : option error)
| AClose (url : string)
| ALog (msg : string).

Definition Trace : Type := list Action.

(** The collaborators of the pipeline. The stateful ones answer as a
    function of the trace so far. *)
Record Externals : Type := mkExternals {
  (** [time.Now().Unix()] *)
  time_Now : Trace → Z;
  (** go-nostr's [Sign]: hex-decode the secret key and derive its public
      key; fails on a malformed key. *)
  derive_PubKey : string → error + string;
  (** go-nostr: SHA-256 of the canonical serialisation, in hex. *)
  event_hash : Event → string;
  (** Schnorr signature of a hash under a secret key. *)
  schnorr_Sign : string → string → error + string;
  (** [db.SaveEvent] *)
  db_SaveEvent : Trace → Event → option error;
  (** [nostr.RelayConnect] *)
  net_RelayConnect : Trace → string → option error;
  (** [relay.Publish] *)
  net_Publish : Trace → string → Event → option error;
  (** [policies.RejectEventsWithBase64Media] *)
  RejectEventsWithBase64Media : Policy;
  (** [policies.EventIPRateLimiter(tokensPerInterval, interval, maxTokens)],
      the limiter with its bucket as it stands when it is asked. *)
  EventIPRateLimiter : Z → Z → Z → Policy
}.

(** ** Configuration loading *)

Definition Environ : Type := gmap string string.

Definition getEnv (env : Environ) (key fallback : string) : string :=
  match env !! key with
  | Some value => value
  | None => fallback
  end.

(** [os.Getenv] *)
Definition Getenv (env : Environ) (key : string) : string :=
  default "" (env !! key).

Definition parseAllowedKinds (kindsStr : string) : list Z :=
  fold_left
    (λ kinds kindStr,
       match GoStrconv.Atoi (GoStrings.TrimSpace kindStr) with
       | Some kind => kinds ++ [kind]
       | None => kinds
       end)
    (GoStrings.Split kindsStr ","%char) [].

Definition parseWhitelist (whitelistStr : string) : gmap string bool :=
  fold_left
    (λ (m : gmap string bool) pubkey,
       let trimmedPubkey := GoStrings.TrimSpace pubkey in
       if String.eqb trimmedPubkey "" then m
       else <[trimmedPubkey := true]> m)
    (GoStrings.Split whitelistStr ","%char) ∅.

(** [env] is the process environment after [godotenv.Load]. *)
Definition loadConfig (env : Environ) : error + Config :=
  if String.eqb (Getenv env "RELAY_PRIVATE_KEY") "" then
    inl (ErrorString "RELAY_PRIVATE_KEY not set in environment")
  else
    inr {|
      RelayName := getEnv env "RELAY_NAME" "Khatru Mixer Relay";
      RelayPubkey := getEnv env "RELAY_PUBKEY" "";
      RelayPrivateKey := Getenv env "RELAY_PRIVATE_KEY";
      RelayIcon := getEnv env "RELAY_ICON" "";
      RelayDescription :=
        getEnv env "RELAY_DESCRIPTION"
          "A Nostr relay that mixes and anonymizes events";
      AllowedKinds := parseAllowedKinds (getEnv env "ALLOWED_KINDS" "1,30023");
      DBPath := getEnv env "DB_PATH" "./khatru-sqlite.db";
      Port := getEnv env "PORT" "3334";
      WhitelistedPubkeys := parseWhitelist (getEnv env "WHITELISTED_PUBKEYS" "");
      RebroadcastRelays :=
        List.map GoStrings.TrimSpace
          (GoStrings.Split (getEnv env "REBROADCAST_RELAYS" "") ","%char)
    |}.

(** ** Admission policies *)

Fixpoint kind_allowed (allowedKinds : list Z) (k : Z) : bool :=
  match allowedKinds with
  | [] => false
  | kind :: rest => if (k =? kind)%Z then true else kind_allowed rest k
  end.

Definition createRejectUnsupportedKinds (allowedKinds : list Z) : Policy :=
  λ _ event,
    if kind_allowed allowedKinds (Kind event) then (false, "")
    else (true, "event kind " +:+ pretty (Kind event) +:+ " is not supported").

Definition createRejectNonWhitelistedPubkeys (whitelist : gmap string bool)
  : Policy :=
  λ _ event,
    if bool_decide (size whitelist = 0%nat) then (false, "")
    else if negb (default false (whitelist !! PubKey event))
         then (true, "pubkey not whitelisted")
         else (false, "").

(** [setupRelayHandlers], lines 138-143: the policies in the order in which
    they are appended to [relay.RejectEvent]. *)
Definition RejectEvent (ext : Externals) (config : Config) : list Policy :=
  [ createRejectNonWhitelistedPubkeys (WhitelistedPubkeys config);
    createRejectUnsupportedKinds (AllowedKinds config);
    RejectEventsWithBase64Media ext;
    EventIPRateLimiter ext 5 60000000000 30 ].

(** khatru walks [relay.RejectEvent] in order and stops at the first policy
    that rejects, with that policy's reason. *)
Fixpoint runRejectEvent (ps : list Policy) (ctx : Context) (event : Event)
  : bool * string :=
  match ps with
  | [] => (false, "")
  | reject :: rest =>
      let '(rejected, msg) := reject ctx event in
      if rejected then (true, msg) else runRejectEvent rest ctx event
  end.

Definition admission (ext : Externals) (config : Config) : Policy :=
  runRejectEvent (RejectEvent ext config).

(** ** Signing (go-nostr's [Event.Sign])

    Sets [PubKey] from the secret key, then [ID] to the hash of the event
    with that key, then [Sig]; the other fields are left alone. *)
Definition Sign (ext : Externals) (evt : Event) (secretKey : string)
  : error + Event :=
  match derive_PubKey ext secretKey with
  | inl err => inl err
  | inr pk =>
      let evt1 := {| ID := ID evt; PubKey := pk; CreatedAt := CreatedAt evt;
                     Kind := Kind evt; Tags := Tags evt;
                     Content := Content evt; Sig := Sig evt |} in
      let h := event_hash ext evt1 in
      match schnorr_Sign ext secretKey h with
      | inl err => inl err
      | inr sig =>
          inr {| ID := h; PubKey := pk; CreatedAt := CreatedAt evt;
                 Kind := Kind evt; Tags := Tags evt;
                 Content := Content evt; Sig := sig |}
      end
  end.

(** ** Mixing, storing, fanning out *)

(** The struct literal of lines 169-174, [t] being the clock reading. *)
Definition mixedEvent (event : Event) (t : Z) : Event :=
  {| ID := ""; PubKey := ""; CreatedAt := t; Kind := Kind event;
     Tags := Tags event; Content := Content event; Sig := "" |}.

(** [go rebroadcastEvent(...)] only records that the goroutine was started:
    what it does is [rebroadcastEvent] below, run on a schedule of its own. *)
Definition mixAndStoreEvent (ext : Externals) (event : Event)
    (privateKey : string) (rebroadcastRelays : list string) (tr : Trace)
  : option error * Trace :=
  let t := time_Now ext tr in
  let tr1 := tr ++ [ATimeNow t] in
  match Sign ext (mixedEvent event t) privateKey with
  | inl err => (Some (Errorf_w "failed to sign mixed event: " err), tr1)
  | inr mixed =>
      let r := db_SaveEvent ext tr1 mixed in
      let tr2 := tr1 ++ [ASaveEvent mixed r] in
      match r with
      | Some err => (Some (Errorf_w "failed to save mixed event: " err), tr2)
      | None =>
          (None,
           tr2 ++ [ABroadcastEvent mixed;
                   AGoRebroadcast mixed rebroadcastRelays])
      end
  end.

(** The closure of [rebroadcastEvent]'s loop body: one peer. *)
Definition rebroadcastOne (ext : Externals) (event : Event) (url : string)
    (tr : Trace) : option error * Trace :=
  let c := net_RelayConnect ext tr url in
  let tr1 := tr ++ [ARelayConnect url c] in
  match c with
  | Some err =>
      (Some (ErrorString
               ("failed to connect to relay " +:+ url +:+ ": " +:+ Error err)),
       tr1)
  | None =>
      let p := net_Publish ext tr1 url event in
      let tr2 := tr1 ++ [APublish url event p] in
      match p with
      | Some err =>
          (Some (ErrorString
                   ("failed to publish event to relay " +:+ url +:+ ": "
                    +:+ Error err)),
           tr2 ++ [AClose url])
      | None =>
          (None,
           tr2 ++ [ALog ("Event rebroadcasted to relay: " +:+ url);
                   AClose url])
      end
  end.

Fixpoint rebroadcastLoop (ext : Externals) (event : Event)
    (relays : list string) (errors : list string) (tr : Trace)
  : list string * Trace :=
  match relays with
  | [] => (errors, tr)
  | url :: rest =>
      let '(err, tr1) := rebroadcastOne ext event url tr in
      rebroadcastLoop ext event rest
        (match err with
         | Some e => errors ++ [Error e]
         | None => errors
         end) tr1
  end.

Definition rebroadcastEvent (ext : Externals) (event : Event)
    (relays : list string) (tr : Trace) : list string * Trace :=
  rebroadcastLoop ext event relays [] tr.

(** ** The two ways in *)

Inductive Outcome : Type :=
| Rejected (reason : string)
| Failed (err : error)
| Stored.

(** The protocol path: khatru runs the [RejectEvent] chain and, when no
    policy rejects, the [StoreEvent] handler that [setupRelayHandlers]
    registered (line 131), which is [mixAndStoreEvent]. *)
Definition AddEvent (ext : Externals) (config : Config) (ctx : Context)
    (event : Event) (tr : Trace) : Outcome * Trace :=
  match admission ext config ctx event with
  | (true, reason) => (Rejected reason, tr)
  | (false, _) =>
      match mixAndStoreEvent ext event (RelayPrivateKey config)
              (RebroadcastRelays config) tr with
      | (Some err, tr') => (Failed err, tr')
      | (None, tr') => (Stored, tr')
      end
  end.

Record Request : Type := mkRequest {
  Method : string;
  FormValue_content : string
}.

Record Response : Type := mkResponse {
  StatusCode : Z;
  ContentType : option string;
  Body : string
}.

(** A handler that only calls [w.Write]: status 200, no header set. *)
Definition write (body : string) : Response :=
  {| StatusCode := 200; ContentType := None; Body := body |}.

(** The double quote of the HTML fragments. *)
Definition dq : string := String (ascii_of_N 34) EmptyString.

(** [<p class="cls">text</p>] *)
Definition p_class (cls text : string) : string :=
  "<p class=" +:+ dq +:+ cls +:+ dq +:+ ">" +:+ text +:+ "</p>".

(** [fmt.Sprintf(`<li class="warning">%s</li>`, err)] *)
Definition li_warning (err : string) : string :=
  "<li class=" +:+ dq +:+ "warning" +:+ dq +:+ ">" +:+ err +:+ "</li>".

(** Lines 327-334: the success page, with the rebroadcast issues if any. *)
Definition renderResponse (rebroadcastErrors : list string) : string :=
  let response := p_class "success" "Note submitted successfully!" in
  match rebroadcastErrors with
  | [] => response
  | _ =>
      fold_left (λ response err, response +:+ li_warning err)
        rebroadcastErrors
        (response +:+ p_class "warning" "Rebroadcast issues:" +:+ "<ul>")
      +:+ "</ul>"
  end.

(** [http.Error]: plain text, the message and a newline. *)
Definition http_Error (msg : string) (code : Z) : Response :=
  {| StatusCode := code;
     ContentType := Some "text/plain; charset=utf-8";
     Body := msg +:+ String (ascii_of_N 10) EmptyString |}.

(** The struct literal of lines 306-311, [t] being the clock reading. *)
Definition synthesizedEvent (content : string) (t : Z) : Event :=
  {| ID := ""; PubKey := ""; CreatedAt := t; Kind := 1; Tags := [];
     Content := content; Sig := "" |}.

(** The handler of [/submit-note]. The event it synthesises is signed in
    place; that signed event is what the rest of the handler holds. *)
Definition createSubmitNoteHandler (ext : Externals) (config : Config)
    (r : Request) (tr : Trace) : Response * Trace :=
  if negb (String.eqb (Method r) "POST") then
    (http_Error "Method not allowed" 405, tr)
  else if negb (bool_decide (size (WhitelistedPubkeys config) = 0%nat)) then
    ({| StatusCode := 403; ContentType := None;
        Body := p_class "error"
                  "This relay is not open for public submissions" |}, tr)
  else
    let content := FormValue_content r in
    if String.eqb content "" then
      (write (p_class "error" "Content cannot be empty"), tr)
    else
      let t := time_Now ext tr in
      let tr1 := tr ++ [ATimeNow t] in
      match Sign ext (synthesizedEvent content t) (RelayPrivateKey config) with
      | inl _ => (write (p_class "error" "Failed to sign event"), tr1)
      | inr event =>
          match mixAndStoreEvent ext event (RelayPrivateKey config)
                  (RebroadcastRelays config) tr1 with
          | (Some _, tr2) =>
              (write (p_class "error" "Failed to store event"), tr2)
          | (None, tr2) =>
              let '(rebroadcastErrors, tr3) :=
                rebroadcastEvent ext event (RebroadcastRelays config) tr2 in
              ({| StatusCode := 200; ContentType := Some "text/html";
                  Body := renderResponse rebroadcastErrors |}, tr3)
          end
      end.

(** ** Reading a trace *)

(** The actions a run added to the trace it started from. *)
Definition since (tr tr' : Trace) : Trace := drop (length tr) tr'.

(** The addresses a run tried to connect to, in order. *)
Definition connects (acts : Trace) : list string :=
  omap (λ a, match a with ARelayConnect url _ => Some url | _ => None end)
       acts.

(** The calls of [db.SaveEvent], each with its result. *)
Definition saves (acts : Trace) : list (Event * option error) :=
  omap (λ a, match a with ASaveEvent e r => Some (e, r) | _ => None end) acts.

(** Local fan-out and everything the peer rebroadcast does. *)
Definition is_fanout (a : Action) : bool :=
  match a with
  | ABroadcastEvent _ | AGoRebroadcast _ _ | ARelayConnect _ _
  | APublish _ _ _ | AClose _ => true
  | ATimeNow _ | ASaveEvent _ _ | ALog _ => false
  end.

Definition fanout (acts : Trace) : Trace := List.filter is_fanout acts.

(** The events handed to the store, to the local subscribers or to a peer
    (directly, or through the rebroadcast goroutine). *)
Definition events_out (acts : Trace) : list Event :=
  omap (λ a, match a with
             | ASaveEvent e _ | ABroadcastEvent e | AGoRebroadcast e _
             | APublish _ e _ => Some e
             | _ => None
             end) acts.

(** The events handed to a peer by a rebroadcast that ran in this trace. *)
Definition published (acts : Trace) : list Event :=
  omap (λ a, match a with APublish _ e _ => Some e | _ => None end) acts.

(** How the attempt on one peer ended. *)
Inductive Attempt : Type :=
| ConnectFailed (err : error)
| PublishFailed (err : error)
| Delivered.

Definition attempt_failed (a : Attempt) : bool :=
  match a with Delivered => false | _ => true end.

(** What an attempt on [url] leaves in the trace. *)
Definition attempt_actions (event : Event) (url : string) (a : Attempt)
  : Trace :=
  match a with
  | ConnectFailed err => [ARelayConnect url (Some err)]
  | PublishFailed err =>
      [ARelayConnect url None; APublish url event (Some err); AClose url]
  | Delivered =>
      [ARelayConnect url None; APublish url event None;
       ALog ("Event rebroadcasted to relay: " +:+ url); AClose url]
  end.

(** The failure description of an attempt on [url], if it failed. *)
Definition attempt_error (url : string) (a : Attempt) : option string :=
  match a with
  | ConnectFailed err =>
      Some ("failed to connect to relay " +:+ url +:+ ": " +:+ Error err)
  | PublishFailed err =>
      Some ("failed to publish event to relay " +:+ url +:+ ": "
            +:+ Error err)
  | Delivered => None
  end.

(** [sub] occurs in [s]. *)
Definition contains (sub s : string) : Prop :=
  ∃ pre post : string, s = pre +:+ sub +:+ post.

(** ** Sample collaborators for the worked examples

    A clock that advances one second per reading, a toy signer, a store
    that is up or down, and a network on which the empty address and
    [wss://down] cannot be reached. *)

Definition clock_reads (tr : Trace) : list Z :=
  omap (λ a, match a with ATimeNow t => Some t | _ => None end) tr.

Definition sample_ext (db_up : bool) : Externals :=
  {| time_Now := λ tr, 100 + Z.of_nat (length (clock_reads tr));
     derive_PubKey := λ sk,
       if String.eqb sk "" then inl (ErrorString "invalid secret key")
       else inr ("pub-of-" +:+ sk);
     event_hash := λ e,
       PubKey e +:+ "/" +:+ pretty (CreatedAt e) +:+ "/" +:+ pretty (Kind e)
       +:+ "/" +:+ Content e;
     schnorr_Sign := λ sk h, inr ("sig-" +:+ sk +:+ "-" +:+ h);
     db_SaveEvent := λ _ _,
       if db_up then None else Some (ErrorString "database is locked");
     net_RelayConnect := λ _ url,
       if String.eqb url "" then Some (ErrorString "invalid relay URL")
       else if String.eqb url "wss://down"
            then Some (ErrorString "connection refused")
            else None;
     net_Publish := λ _ _ _, None;
     RejectEventsWithBase64Media := λ _ _, (false, "");
     EventIPRateLimiter := λ _ _ _ _ _, (false, "") |}.

Definition sample_config (kinds : list Z) (whitelist : gmap string bool)
    (relays : list string) : Config :=
  {| RelayName := "Khatru Mixer Relay"; RelayPubkey := "pub-of-sk";
     RelayPrivateKey := "sk"; RelayIcon := "";
     RelayDescription := "A Nostr relay that mixes and anonymizes events";
     AllowedKinds := kinds; DBPath := "./khatru-sqlite.db"; Port := "3334";
     WhitelistedPubkeys := whitelist; RebroadcastRelays := relays |}.

Definition sample_ctx : Context := {| ctx_remote := "203.0.113.7" |}.

Definition sample_post (content : string) : Request :=
  {| Method := "POST"; FormValue_content := content |}.

Definition sample_event (pk : string) (created kind : Z) (content : string)
  : Event :=
  {| ID := "id-" +:+ content; PubKey := pk; CreatedAt := created;
     Kind := kind; Tags := [["t"; "demo"]]; Content := content;
     Sig := "sig-by-" +:+ pk |}.

(** ** More of [main.go], and more ways to read strings and traces *)

(** How often [sep] occurs in [s]. *)
Fixpoint count_char (sep : ascii) (s : string) : nat :=
  match s with
  | EmptyString => 0
  | String c rest =>
      if Ascii.eqb c sep then S (count_char sep rest) else count_char sep rest
  end.

(** A visible ASCII character: codes 33 to 126. *)
Definition visible (c : ascii) : bool :=
  let n := Z.of_N (N_of_ascii c) in (32 <? n)%Z && (n <? 127)%Z.

(** Every character of [s] satisfies [P]. *)
Fixpoint all_chars (P : ascii → bool) (s : string) : bool :=
  match s with
  | EmptyString => true
  | String c rest => P c && all_chars P rest
  end.

(** [s] starts and ends with a visible ASCII character. *)
Definition trimmed (s : string) : bool :=
  match s, String.rev s with
  | String c _, String d _ => visible c && visible d
  | _, _ => false
  end.

(** A decimal digit or the minus sign: what [%d] prints. *)
Definition decimal_char (c : ascii) : bool :=
  match GoStrconv.digit c with
  | Some _ => true
  | None => Ascii.eqb c "-"%char
  end.

(** The range of Go's [int] on a 64-bit platform. *)
Definition int64 (z : Z) : Prop := - 2 ^ 63 ≤ z < 2 ^ 63.

(** The peers a run connected to with success, in order. *)
Definition connected (acts : Trace) : list string :=
  omap (λ a, match a with ARelayConnect url None => Some url | _ => None end)
       acts.

(** The peers a run published to, in order. *)
Definition published_to (acts : Trace) : list string :=
  omap (λ a, match a with APublish url _ _ => Some url | _ => None end) acts.

(** The peers whose connection a run closed, in order. *)
Definition closed (acts : Trace) : list string :=
  omap (λ a, match a with AClose url => Some url | _ => None end) acts.

(** The lines a run logged. *)
Definition logged (acts : Trace) : list string :=
  omap (λ a, match a with ALog msg => Some msg | _ => None end) acts.

(** Network calls and log lines only. *)
Definition is_peer_action (a : Action) : bool :=
  match a with
  | ARelayConnect _ _ | APublish _ _ _ | AClose _ | ALog _ => true
  | ATimeNow _ | ASaveEvent _ _ | ABroadcastEvent _ | AGoRebroadcast _ _ =>
      false
  end.

(** The fields of [relay.Info] that [InitializeRelay] sets. *)
Record RelayInfo : Type := mkRelayInfo {
  Info_Name : string;
  Info_PubKey : string;
  Info_Icon : string;
  Info_Description : string;
  Info_Software : string;
  Info_Version : string
}.

(** The package variable [version]. *)
Definition version : string := "0.0.1".

(** [(c *Config) InitializeRelay], lines 104-113. *)
Definition InitializeRelay (c : Config) : RelayInfo :=
  {| Info_Name := RelayName c;
     Info_PubKey := RelayPubkey c;
     Info_Icon := RelayIcon c;
     Info_Description := RelayDescription c;
     Info_Software := "https://github.com/gzuuus/note-mixer-relay";
     Info_Version := version |}.

(** [db_Init] is [db.Init] of the sqlite3 backend opened at a path; the
    backend is told apart by that path. *)
Definition initializeDatabase (db_Init : string → option error)
    (dbPath : string) : error + string :=
  match db_Init dbPath with
  | Some err => inl (Errorf_w "failed to initialize database: " err)
  | None => inr dbPath
  end.

(** How [main] ends: [log.Fatalf] with a message, or the call of
    [http.ListenAndServe] on an address. *)
Inductive Startup : Type :=
| Fatal (msg : string)
| ListenAndServe (addr : string) (config : Config) (info : RelayInfo)
    (db : string).

(** [main]; [templates_Parse] is the outcome of parsing the page template in
    [InitTemplates]. *)
Definition main (env : Environ) (templates_Parse : option error)
    (db_Init : string → option error) : Startup :=
  match loadConfig env with
  | inl err => Fatal ("Failed to load configuration: " +:+ Error err)
  | inr config =>
      match templates_Parse with
      | Some err => Fatal ("Failed to parse template: " +:+ Error err)
      | None =>
          let relay := InitializeRelay config in
          match initializeDatabase db_Init (DBPath config) with
          | inl err => Fatal ("Failed to initialize database: " +:+ Error err)
          | inr db => ListenAndServe (":" +:+ Port config) config relay db
          end
      end
  end.

(** The data [createHomeHandler] passes to the page template. *)
Record HomeData : Type := mkHomeData {
  Home_RelayName : string;
  Home_RelayDescription : string;
  Home_AllowedKinds : list Z;
  Home_WhitelistEnabled : bool;
  Home_Host : string
}.

(** [createHomeHandler], lines 269-281; [host] is [r.Host]. *)
Definition createHomeHandler (config : Config) (host : string) : HomeData :=
  {| Home_RelayName := RelayName config;
     Home_RelayDescription := RelayDescription config;
     Home_AllowedKinds := AllowedKinds config;
     Home_WhitelistEnabled :=
       bool_decide (0 < size (WhitelistedPubkeys config))%nat;
     Home_Host := host |}.

(** A sample environment: padded and blank allowlist fields, an empty
    ALLOWED_KINDS, a peer list with a trailing comma. *)
Definition sample_env : Environ :=
  {[ "RELAY_PRIVATE_KEY" := "sk";
     "WHITELISTED_PUBKEYS" := " abc , ,xyz";
     "ALLOWED_KINDS" := "";
     "REBROADCAST_RELAYS" := "wss://down, wss://peer," ]}.

(** A configuration entry: it starts and ends with a visible character and
    holds no comma. *)
Definition entry (s : string) : Prop :=
  trimmed s = true ∧ count_char ","%char s = 0%nat.

(** What the network answers to an attempt on [url] made when the trace is
    [tr]: the connection is refused, or it is made and the publication is
    refused, or both succeed. *)
Definition network_attempt (ext : Externals) (event : Event) (url : string)
    (tr : Trace) : Attempt :=
  match net_RelayConnect ext tr url with
  | Some err => ConnectFailed err
  | None =>
      match net_Publish ext (tr ++ [ARelayConnect url None]) url event with
      | Some err => PublishFailed err
      | None => Delivered
      end
  end.

(** The network's answers to the peers of a list, asked one after the other,
    each when the earlier attempts are in the trace. *)
Fixpoint network_attempts (ext : Externals) (event : Event)
    (relays : list string) (tr : Trace) : list Attempt :=
  match relays with
  | [] => []
  | url :: rest =>
      let a := network_attempt ext event url tr in
      a :: network_attempts ext event rest (tr ++ attempt_actions event url a)
  end.

(** * Properties *)

(** ** The admission policies *)

Lemma kind_allowed_spec (allowedKinds : list Z) (k : Z) :
  kind_allowed allowedKinds k = true ↔ k ∈ allowedKinds.
Proof.
  induction allowedKinds as [|kind rest IH]; simpl.
  - split; [discriminate | intros H; inversion H].
  - destruct (Z.eqb_spec k kind) as [->|Hne].
    + split; [intros _; left | reflexivity].
    + rewrite IH. split; [by right | ].
      intros H. inversion H; subst; [congruence | assumption].
Qed.

Lemma whitelist_disabled (whitelist : gmap string bool) :
  bool_decide (size whitelist = 0%nat) = true ↔ whitelist = ∅.
Proof. by rewrite bool_decide_eq_true, map_size_empty_iff. Qed.

(** The chain stops at the first policy that rejects. *)
Lemma runRejectEvent_cons (p : Policy) (ps : list Policy) ctx event :
  runRejectEvent (p :: ps) ctx event =
  if fst (p ctx event) then (true, snd (p ctx event))
  else runRejectEvent ps ctx event.
Proof. simpl. by destruct (p ctx event) as [[] msg]. Qed.

Lemma runRejectEvent_first (ps : list Policy) ctx event reason :
  runRejectEvent ps ctx event = (true, reason) →
  ∃ (i : nat) (p : Policy),
    ps !! i = Some p ∧ p ctx event = (true, reason) ∧
    ∀ (j : nat) (q : Policy), (j < i)%nat → ps !! j = Some q →
                              fst (q ctx event) = false.
Proof.
  induction ps as [|p ps IH]; [discriminate|].
  rewrite runRejectEvent_cons.
  destruct (p ctx event) as [[] msg] eqn:Hp; simpl.
  - intros [= <-]. exists 0%nat, p. repeat split; [done|]. intros; lia.
  - intros (i & q & Hi & Hq & Hbefore)%IH.
    exists (S i), q. repeat split; try done.
    intros [|j] q' Hj; simpl; intros Hq'.
    + injection Hq' as <-. by rewrite Hp.
    + apply (Hbefore j); [lia | done].
Qed.

Lemma pubkey_policy_rejects (whitelist : gmap string bool) ctx event :
  whitelist ≠ ∅ →
  whitelist !! PubKey event ≠ Some true →
  createRejectNonWhitelistedPubkeys whitelist ctx event
  = (true, "pubkey not whitelisted").
Proof.
  intros Hne Hnot. unfold createRejectNonWhitelistedPubkeys.
  destruct (bool_decide (size whitelist = 0%nat)) eqn:Hsz.
  - by apply whitelist_disabled in Hsz.
  - destruct (whitelist !! PubKey event) as [[]|]; simpl; done.
Qed.

Lemma kind_policy_rejects (allowedKinds : list Z) ctx event :
  Kind event ∉ allowedKinds →
  createRejectUnsupportedKinds allowedKinds ctx event
  = (true, "event kind " +:+ pretty (Kind event) +:+ " is not supported").
Proof.
  intros Hnot. unfold createRejectUnsupportedKinds.
  destruct (kind_allowed allowedKinds (Kind event)) eqn:Hk; [|reflexivity].
  by apply kind_allowed_spec in Hk.
Qed.

Lemma kind_policy_passes (allowedKinds : list Z) ctx event :
  Kind event ∈ allowedKinds →
  createRejectUnsupportedKinds allowedKinds ctx event = (false, "").
Proof.
  intros Hin%kind_allowed_spec. unfold createRejectUnsupportedKinds.
  by rewrite Hin.
Qed.

(** C3. With a non-empty pubkey allowlist, an event whose publicKey is not a
    member is rejected with the reason "pubkey not whitelisted", by the
    policy and by the whole admission chain; with an empty allowlist the
    pubkey policy passes every event, whatever its publicKey. *)
Theorem pubkey_allowlist_check (ext : Externals) (config : Config)
    (ctx : Context) (event : Event) :
  (WhitelistedPubkeys config ≠ ∅ →
   WhitelistedPubkeys config !! PubKey event ≠ Some true →
   createRejectNonWhitelistedPubkeys (WhitelistedPubkeys config) ctx event
   = (true, "pubkey not whitelisted")
   ∧ admission ext config ctx event = (true, "pubkey not whitelisted"))
  ∧ (WhitelistedPubkeys config = ∅ →
     createRejectNonWhitelistedPubkeys (WhitelistedPubkeys config) ctx event
     = (false, "")).
Proof.
  split.
  - intros Hne Hnot.
    pose proof (pubkey_policy_rejects _ ctx event Hne Hnot) as Hrej.
    split; [done|].
    unfold admission, RejectEvent. by rewrite runRejectEvent_cons, Hrej.
  - intros ->. reflexivity.
Qed.

(** C4. An event whose kind is not among the allowed kinds is rejected by
    the kind policy with the reason "event kind <kind in decimal> is not
    supported"; an event whose kind is among them passes with an empty
    reason. *)
Theorem kind_allowlist_check (allowedKinds : list Z) (ctx : Context)
    (event : Event) :
  (Kind event ∉ allowedKinds →
   createRejectUnsupportedKinds allowedKinds ctx event
   = (true, "event kind " +:+ pretty (Kind event) +:+ " is not supported"))
  ∧ (Kind event ∈ allowedKinds →
     createRejectUnsupportedKinds allowedKinds ctx event = (false, "")).
Proof.
  split; [apply kind_policy_rejects | apply kind_policy_passes].
Qed.

(** C5. The chain asks the pubkey policy before the kind policy and stops at
    the first rejection: an event that fails both is rejected with the
    reason "pubkey not whitelisted", not with the kind policy's reason. *)
Theorem pubkey_check_before_kind_check (ext : Externals) (config : Config)
    (ctx : Context) (event : Event) :
  WhitelistedPubkeys config ≠ ∅ →
  WhitelistedPubkeys config !! PubKey event ≠ Some true →
  Kind event ∉ AllowedKinds config →
  (∃ rest,
     RejectEvent ext config
     = createRejectNonWhitelistedPubkeys (WhitelistedPubkeys config)
       :: createRejectUnsupportedKinds (AllowedKinds config) :: rest)
  ∧ fst (createRejectUnsupportedKinds (AllowedKinds config) ctx event) = true
  ∧ admission ext config ctx event = (true, "pubkey not whitelisted")
  ∧ snd (admission ext config ctx event)
    ≠ snd (createRejectUnsupportedKinds (AllowedKinds config) ctx event).
Proof.
  intros Hne Hnot Hkind.
  pose proof (kind_policy_rejects _ ctx event Hkind) as Hk.
  assert (admission ext config ctx event = (true, "pubkey not whitelisted"))
    as Hadm.
  { unfold admission, RejectEvent.
    by rewrite runRejectEvent_cons, pubkey_policy_rejects. }
  split; [by eexists|].
  split; [by rewrite Hk|].
  split; [done|].
  rewrite Hadm, Hk. simpl. discriminate.
Qed.

(** ** The peer rebroadcast *)

Lemma since_app (tr acts : Trace) : since tr (tr ++ acts) = acts.
Proof. unfold since. by rewrite drop_app_length. Qed.

Lemma connects_app (a b : Trace) : connects (a ++ b) = connects a ++ connects b.
Proof. apply omap_app. Qed.

Lemma connects_attempt event url a :
  connects (attempt_actions event url a) = [url].
Proof. by destruct a. Qed.

Lemma rebroadcastOne_attempt ext event url tr :
  ∃ a : Attempt,
    rebroadcastOne ext event url tr
    = (ErrorString <$> attempt_error url a,
       tr ++ attempt_actions event url a).
Proof.
  unfold rebroadcastOne.
  destruct (net_RelayConnect ext tr url) as [e|] eqn:Hc.
  - by exists (ConnectFailed e).
  - destruct (net_Publish ext _ url event) as [e|] eqn:Hp.
    + exists (PublishFailed e). simpl. by rewrite <-!app_assoc.
    + exists Delivered. simpl. by rewrite <-!app_assoc.
Qed.

Lemma rebroadcastLoop_attempts ext event relays :
  ∀ errors tr,
  ∃ attempts : list Attempt,
    length attempts = length relays
    ∧ rebroadcastLoop ext event relays errors tr
      = (errors ++ omap (λ p, attempt_error p.1 p.2) (zip relays attempts),
         tr ++ concat (zip_with (attempt_actions event) relays attempts)).
Proof.
  induction relays as [|url rest IH]; intros errors tr.
  - exists []. simpl. by rewrite !app_nil_r.
  - simpl.
    destruct (rebroadcastOne_attempt ext event url tr) as [a ->].
    destruct (IH (match ErrorString <$> attempt_error url a with
                  | Some e => errors ++ [Error e]
                  | None => errors
                  end) (tr ++ attempt_actions event url a))
      as (attempts & Hlen & ->).
    exists (a :: attempts). split; [simpl; by rewrite Hlen|].
    simpl. rewrite <-!app_assoc. f_equal.
    destruct (attempt_error url a) as [msg|]; simpl; [|done].
    by rewrite <-app_assoc.
Qed.

Lemma attempt_error_contains url a msg :
  attempt_error url a = Some msg → contains url msg.
Proof.
  destruct a as [e|e|]; simpl; intros [= <-].
  - by exists "failed to connect to relay ", (": " +:+ Error e).
  - by exists "failed to publish event to relay ", (": " +:+ Error e).
Qed.

Lemma omap_attempt_error_length relays :
  ∀ attempts, length attempts = length relays →
  length (omap (λ p : string * Attempt, attempt_error p.1 p.2)
               (zip relays attempts))
  = length (List.filter attempt_failed attempts).
Proof.
  induction relays as [|url rest IH]; intros [|a attempts]; simpl;
    try done.
  intros [= Hlen]. specialize (IH _ Hlen).
  destruct a; simpl; [f_equal; exact IH | f_equal; exact IH | exact IH].
Qed.

Lemma omap_attempt_error_nil relays :
  ∀ attempts, length attempts = length relays →
  omap (λ p : string * Attempt, attempt_error p.1 p.2) (zip relays attempts)
  = [] ↔ Forall (λ a, a = Delivered) attempts.
Proof.
  induction relays as [|url rest IH]; intros [|a attempts]; simpl;
    try done.
  intros [= Hlen]. specialize (IH _ Hlen).
  destruct a; simpl.
  - split; [done | intros H; by inversion H].
  - split; [done | intros H; by inversion H].
  - rewrite IH. split; [by constructor | intros H; by inversion H].
Qed.

Lemma connects_attempts event relays :
  ∀ attempts, length attempts = length relays →
  connects (concat (zip_with (attempt_actions event) relays attempts))
  = relays.
Proof.
  induction relays as [|url rest IH]; intros [|a attempts]; simpl;
    try done.
  intros [= Hlen]. rewrite connects_app, connects_attempt, IH; done.
Qed.

Lemma rebroadcastOne_network ext event url tr :
  rebroadcastOne ext event url tr
  = (ErrorString <$> attempt_error url (network_attempt ext event url tr),
     tr ++ attempt_actions event url (network_attempt ext event url tr)).
Proof.
  unfold rebroadcastOne, network_attempt.
  destruct (net_RelayConnect ext tr url) as [e|]; [done|].
  destruct (net_Publish ext _ url event) as [e|]; simpl;
    by rewrite <-!app_assoc.
Qed.

Lemma network_attempts_length ext event relays :
  ∀ tr, length (network_attempts ext event relays tr) = length relays.
Proof.
  induction relays as [|url rest IH]; intros tr; simpl; [done|].
  by rewrite IH.
Qed.

Lemma rebroadcastLoop_network ext event relays :
  ∀ errors tr,
    rebroadcastLoop ext event relays errors tr
    = (errors ++ omap (λ p, attempt_error p.1 p.2)
                   (zip relays (network_attempts ext event relays tr)),
       tr ++ concat (zip_with (attempt_actions event) relays
                       (network_attempts ext event relays tr))).
Proof.
  induction relays as [|url rest IH]; intros errors tr.
  - simpl. by rewrite !app_nil_r.
  - simpl. rewrite rebroadcastOne_network, IH.
    rewrite <-!app_assoc. f_equal.
    destruct (attempt_error url (network_attempt ext event url tr))
      as [msg|]; simpl; [|done].
    by rewrite <-app_assoc.
Qed.

(** C2. [rebroadcastEvent] makes one attempt per entry of the peer list, in
    list order and whatever the earlier attempts gave: its trace is the
    attempts' traces one after the other, with one connection per peer, and
    each attempt ends as the network answered it (connection refused,
    publication refused, or delivered). It returns the descriptions of the
    failed attempts in that order, each containing its peer's address; so
    there are as many as peers the network failed, and none exactly when
    every peer was delivered to. *)
Theorem rebroadcast_attempts_every_peer (ext : Externals) (event : Event)
    (relays : list string) (tr : Trace) :
  let attempts := network_attempts ext event relays tr in
  let errors := fst (rebroadcastEvent ext event relays tr) in
  let acts := since tr (snd (rebroadcastEvent ext event relays tr)) in
  length attempts = length relays
  ∧ snd (rebroadcastEvent ext event relays tr) = tr ++ acts
  ∧ acts = concat (zip_with (attempt_actions event) relays attempts)
  ∧ connects acts = relays
  ∧ errors = omap (λ p, attempt_error p.1 p.2) (zip relays attempts)
  ∧ (∀ url a msg, attempt_error url a = Some msg → contains url msg)
  ∧ length errors = length (List.filter attempt_failed attempts)
  ∧ (errors = [] ↔ Forall (λ a, a = Delivered) attempts).
Proof.
  intros attempts errors acts. subst attempts errors acts.
  pose proof (network_attempts_length ext event relays tr) as Hlen.
  unfold rebroadcastEvent. rewrite rebroadcastLoop_network. simpl.
  rewrite since_app.
  repeat split; try done.
  - by apply connects_attempts.
  - apply attempt_error_contains.
  - by apply omap_attempt_error_length.
  - by apply omap_attempt_error_nil.
  - by apply omap_attempt_error_nil.
Qed.

(** ** Mixing and storing *)

Lemma Sign_fields ext evt sk m :
  Sign ext evt sk = inr m →
  Content m = Content evt ∧ Kind m = Kind evt ∧ Tags m = Tags evt
  ∧ CreatedAt m = CreatedAt evt ∧ derive_PubKey ext sk = inr (PubKey m).
Proof.
  unfold Sign. destruct (derive_PubKey ext sk) as [e|pk]; [done|].
  destruct (schnorr_Sign ext sk _) as [e|sig]; [done|].
  by intros [= <-].
Qed.

(** The three ways a run of [mixAndStoreEvent] can go. *)
Lemma mixAndStoreEvent_run ext event privateKey relays tr :
  let t := time_Now ext tr in
  (∃ err, Sign ext (mixedEvent event t) privateKey = inl err
          ∧ mixAndStoreEvent ext event privateKey relays tr
            = (Some (Errorf_w "failed to sign mixed event: " err),
               tr ++ [ATimeNow t]))
  ∨ (∃ m err, Sign ext (mixedEvent event t) privateKey = inr m
              ∧ db_SaveEvent ext (tr ++ [ATimeNow t]) m = Some err
              ∧ mixAndStoreEvent ext event privateKey relays tr
                = (Some (Errorf_w "failed to save mixed event: " err),
                   tr ++ [ATimeNow t; ASaveEvent m (Some err)]))
  ∨ (∃ m, Sign ext (mixedEvent event t) privateKey = inr m
          ∧ db_SaveEvent ext (tr ++ [ATimeNow t]) m = None
          ∧ mixAndStoreEvent ext event privateKey relays tr
            = (None,
               tr ++ [ATimeNow t; ASaveEvent m None; ABroadcastEvent m;
                      AGoRebroadcast m relays])).
Proof.
  intros t. unfold mixAndStoreEvent. fold t.
  destruct (Sign ext (mixedEvent event t) privateKey) as [err|m] eqn:Hs.
  - left. by exists err.
  - destruct (db_SaveEvent ext (tr ++ [ATimeNow t]) m) as [err|] eqn:Hd.
    + right; left. exists m, err. by rewrite <-!app_assoc.
    + right; right. exists m. by rewrite <-!app_assoc.
Qed.

Ltac elem_of_cases :=
  repeat match goal with
    | H : _ ∈ [] |- _ => by apply elem_of_nil in H
    | H : _ ∈ _ :: _ |- _ =>
        apply elem_of_cons in H as [?|H]; [simplify_eq|]
    end.

(** Every event a run of [mixAndStoreEvent] hands out is the signed mixed
    event. *)
Lemma mixAndStoreEvent_events_out ext event privateKey relays tr m :
  m ∈ events_out (since tr (snd (mixAndStoreEvent ext event privateKey
                                   relays tr))) →
  Sign ext (mixedEvent event (time_Now ext tr)) privateKey = inr m.
Proof.
  destruct (mixAndStoreEvent_run ext event privateKey relays tr)
    as [(err & Hs & ->)|[(m' & err & Hs & Hd & ->)|(m' & Hs & Hd & ->)]];
    simpl; rewrite since_app; simpl; intros Hin; elem_of_cases; done.
Qed.

Lemma AddEvent_admitted ext config ctx event tr :
  fst (admission ext config ctx event) = false →
  snd (AddEvent ext config ctx event tr)
  = snd (mixAndStoreEvent ext event (RelayPrivateKey config)
           (RebroadcastRelays config) tr).
Proof.
  unfold AddEvent. destruct (admission ext config ctx event) as [[] msg];
    [done|]. intros _.
  by destruct (mixAndStoreEvent _ _ _ _ _) as [[e|] tr'].
Qed.

(** C1. For an inbound event that passes admission, every event the pipeline
    hands to the store, to the local subscribers or to the peers has the
    inbound content, kind and tags, the public key derived from the relay's
    private key, and the clock value read by the mixing step as createdAt;
    when signing succeeds that mixed event is handed to the store; and
    nothing depends on the inbound id, publicKey, createdAt or signature. *)
Theorem mixed_event_fields (ext : Externals) (config : Config)
    (ctx : Context) (event : Event) (tr : Trace) :
  fst (admission ext config ctx event) = false →
  let t := time_Now ext tr in
  let acts := since tr (snd (AddEvent ext config ctx event tr)) in
  (∀ m, m ∈ events_out acts →
        Content m = Content event ∧ Kind m = Kind event
        ∧ Tags m = Tags event
        ∧ derive_PubKey ext (RelayPrivateKey config) = inr (PubKey m)
        ∧ CreatedAt m = t)
  ∧ (∀ m, Sign ext (mixedEvent event t) (RelayPrivateKey config) = inr m →
          saves acts = [(m, db_SaveEvent ext (tr ++ [ATimeNow t]) m)])
  ∧ (∀ id pk created sig privateKey relays,
        mixAndStoreEvent ext
          {| ID := id; PubKey := pk; CreatedAt := created;
             Kind := Kind event; Tags := Tags event;
             Content := Content event; Sig := sig |} privateKey relays tr
        = mixAndStoreEvent ext event privateKey relays tr).
Proof.
  intros Hadm t acts. subst acts. rewrite (AddEvent_admitted _ _ _ _ _ Hadm).
  split; [|split].
  - intros m Hin%mixAndStoreEvent_events_out.
    apply Sign_fields in Hin as (Hc & Hk & Ht & Hcr & Hpk). done.
  - intros m Hs.
    destruct (mixAndStoreEvent_run ext event (RelayPrivateKey config)
                (RebroadcastRelays config) tr)
      as [(err & Hs' & ->)|[(m' & err & Hs' & Hd & ->)|(m' & Hs' & Hd & ->)]];
      subst t; rewrite Hs in Hs'; simplify_eq; simpl;
      rewrite since_app; simpl; by rewrite Hd.
  - reflexivity.
Qed.

(** C6, as amended. For every inbound event that passes admission, the
    createdAt of the mixed event is the clock value read by the mixing step,
    whatever the inbound createdAt; so it is greater than or equal to the
    inbound createdAt exactly when the inbound event is not dated later than
    that clock value. When signing succeeds there is such a mixed event. *)
Theorem mixed_createdAt_is_clock (ext : Externals) (config : Config)
    (ctx : Context) (event : Event) (tr : Trace) :
  fst (admission ext config ctx event) = false →
  let t := time_Now ext tr in
  let acts := since tr (snd (AddEvent ext config ctx event tr)) in
  (∀ m, m ∈ events_out acts →
        CreatedAt m = t
        ∧ (CreatedAt event ≤ CreatedAt m ↔ CreatedAt event ≤ t))
  ∧ (∀ m, Sign ext (mixedEvent event t) (RelayPrivateKey config) = inr m →
          m ∈ events_out acts).
Proof.
  intros Hadm t acts. subst acts.
  rewrite (AddEvent_admitted _ _ _ _ _ Hadm). split.
  - intros m Hin%mixAndStoreEvent_events_out.
    apply Sign_fields in Hin as (_ & _ & _ & Hcr & _).
    simpl in Hcr. fold t in Hcr. rewrite Hcr. done.
  - intros m Hs.
    destruct (mixAndStoreEvent_run ext event (RelayPrivateKey config)
                (RebroadcastRelays config) tr)
      as [(err & Hs' & ->)|[(m' & err & Hs' & Hd & ->)|(m' & Hs' & Hd & ->)]];
      fold t in Hs'; rewrite Hs in Hs'; simplify_eq; simpl;
      rewrite since_app; simpl; apply list_elem_of_here.
Qed.

(** C6, as stated, fails: no policy of the chain looks at createdAt, so an
    inbound event dated after the relay's clock is mixed into an event with
    an earlier createdAt. Here the clock reads 100 and the inbound event is
    dated 200. *)
Lemma createdAt_ge_inbound_refuted :
  ¬ (∀ (ext : Externals) (config : Config) (ctx : Context) (event : Event)
       (tr : Trace),
       fst (admission ext config ctx event) = false →
       ∀ m, m ∈ events_out (since tr (snd (AddEvent ext config ctx event tr)))
            → CreatedAt event ≤ CreatedAt m).
Proof.
  intros H.
  specialize (H (sample_ext true) (sample_config [1; 30023] ∅ [])
                sample_ctx (sample_event "author" 200 1 "hello") []).
  assert (fst (admission (sample_ext true) (sample_config [1; 30023] ∅ [])
                 sample_ctx (sample_event "author" 200 1 "hello")) = false)
    as Hadm by (vm_compute; reflexivity).
  specialize (H Hadm).
  destruct (events_out _) as [|m l] eqn:E; [vm_compute in E; discriminate|].
  specialize (H m (list_elem_of_here _ _)).
  vm_compute in E. injection E as <- _. simpl in H. lia.
Qed.

(** ** Failure of the store *)

Lemma since_refl (tr : Trace) : since tr tr = [].
Proof. unfold since. by rewrite drop_all. Qed.

Lemma since_app_assoc (tr a b : Trace) : since tr ((tr ++ a) ++ b) = a ++ b.
Proof. by rewrite <-app_assoc, since_app. Qed.

Lemma saves_app (a b : Trace) : saves (a ++ b) = saves a ++ saves b.
Proof. apply omap_app. Qed.

Lemma saves_attempts event relays :
  ∀ attempts,
  saves (concat (zip_with (attempt_actions event) relays attempts)) = [].
Proof.
  induction relays as [|url rest IH]; intros [|a attempts]; simpl; try done.
  rewrite saves_app, IH. by destruct a.
Qed.

Lemma mixAndStoreEvent_save_failed ext event privateKey relays tr m err :
  (m, Some err)
    ∈ saves (since tr (snd (mixAndStoreEvent ext event privateKey relays tr)))
  →
  mixAndStoreEvent ext event privateKey relays tr
  = (Some (Errorf_w "failed to save mixed event: " err),
     tr ++ [ATimeNow (time_Now ext tr); ASaveEvent m (Some err)]).
Proof.
  destruct (mixAndStoreEvent_run ext event privateKey relays tr)
    as [(e & Hs & ->)|[(m' & e & Hs & Hd & ->)|(m' & Hs & Hd & ->)]];
    simpl; rewrite since_app; simpl; intros Hin; elem_of_cases;
    by simplify_eq.
Qed.

(** The ways a run of the submission handler can go. *)
Lemma createSubmitNoteHandler_run ext config r tr :
  let t := time_Now ext tr in
  let privateKey := RelayPrivateKey config in
  let relays := RebroadcastRelays config in
  (∃ resp, createSubmitNoteHandler ext config r tr = (resp, tr))
  ∨ (createSubmitNoteHandler ext config r tr
     = (write (p_class "error" "Failed to sign event"), tr ++ [ATimeNow t]))
  ∨ (∃ event, Sign ext (synthesizedEvent (FormValue_content r) t) privateKey
              = inr event
       ∧ ((∃ err tr2,
             mixAndStoreEvent ext event privateKey relays (tr ++ [ATimeNow t])
             = (Some err, tr2)
             ∧ createSubmitNoteHandler ext config r tr
               = (write (p_class "error" "Failed to store event"), tr2))
          ∨ (∃ tr2,
               mixAndStoreEvent ext event privateKey relays
                 (tr ++ [ATimeNow t]) = (None, tr2)
               ∧ createSubmitNoteHandler ext config r tr
                 = ({| StatusCode := 200; ContentType := Some "text/html";
                       Body := renderResponse
                                 (fst (rebroadcastEvent ext event relays tr2))
                    |},
                    snd (rebroadcastEvent ext event relays tr2))))).
Proof.
  intros t privateKey relays. unfold createSubmitNoteHandler.
  destruct (negb (String.eqb (Method r) "POST")); [left; by eexists|].
  destruct (negb (bool_decide _)); [left; by eexists|].
  destruct (String.eqb (FormValue_content r) ""); [left; by eexists|].
  fold t privateKey relays.
  destruct (Sign ext _ privateKey) as [e|event] eqn:Hs; [right; by left|].
  right; right. exists event. split; [done|].
  destruct (mixAndStoreEvent ext event privateKey relays _)
    as [[err|] tr2] eqn:Hm.
  - left. by exists err, tr2.
  - right. exists tr2. split; [done|].
    by destruct (rebroadcastEvent ext event relays tr2).
Qed.

(** C7. When the store's save of the signed mixed event returns an error,
    [mixAndStoreEvent] returns an error that wraps it, the protocol path
    fails with that error and the HTTP path answers that storing failed;
    on each path the save was tried once and nothing was fanned out: no
    broadcast, no rebroadcast goroutine, no connection to a peer. *)
Theorem save_failure_aborts (ext : Externals) (config : Config)
    (ctx : Context) (event : Event) (r : Request) (tr : Trace)
    (m : Event) (err : error) :
  (∀ privateKey relays,
     let run := mixAndStoreEvent ext event privateKey relays tr in
     (m, Some err) ∈ saves (since tr (snd run)) →
     (∃ e, fst run = Some e ∧ Unwrap e = Some err
           ∧ Error e = "failed to save mixed event: " +:+ Error err)
     ∧ saves (since tr (snd run)) = [(m, Some err)]
     ∧ fanout (since tr (snd run)) = [])
  ∧ (let run := AddEvent ext config ctx event tr in
     (m, Some err) ∈ saves (since tr (snd run)) →
     (∃ e, fst run = Failed e ∧ Unwrap e = Some err)
     ∧ saves (since tr (snd run)) = [(m, Some err)]
     ∧ fanout (since tr (snd run)) = [])
  ∧ (let run := createSubmitNoteHandler ext config r tr in
     (m, Some err) ∈ saves (since tr (snd run)) →
     Body (fst run) = p_class "error" "Failed to store event"
     ∧ saves (since tr (snd run)) = [(m, Some err)]
     ∧ fanout (since tr (snd run)) = []).
Proof.
  split; [|split].
  - intros privateKey relays run Hin. subst run.
    rewrite (mixAndStoreEvent_save_failed _ _ _ _ _ _ _ Hin). simpl.
    rewrite since_app. split; [|done]. by eexists.
  - intros run. subst run. unfold AddEvent.
    destruct (admission ext config ctx event) as [[] msg].
    { simpl. rewrite since_refl. intros Hin. by apply elem_of_nil in Hin. }
    destruct (mixAndStoreEvent ext event _ _ tr) as [res tr'] eqn:Hrun.
    intros Hin.
    assert ((m, Some err)
              ∈ saves (since tr (snd (mixAndStoreEvent ext event
                         (RelayPrivateKey config) (RebroadcastRelays config)
                         tr)))) as Hin'.
    { rewrite Hrun. by destruct res. }
    rewrite (mixAndStoreEvent_save_failed _ _ _ _ _ _ _ Hin') in Hrun.
    injection Hrun as <- <-. simpl. rewrite since_app.
    split; [|done]. by eexists.
  - intros run. subst run.
    destruct (createSubmitNoteHandler_run ext config r tr)
      as [[resp ->]|[->|(ev & Hs & [(e & tr2 & Hm & ->)|(tr2 & Hm & ->)])]];
      simpl.
    + rewrite since_refl. intros Hin. by apply elem_of_nil in Hin.
    + rewrite since_app. simpl. intros Hin. by apply elem_of_nil in Hin.
    + destruct (mixAndStoreEvent_run ext ev (RelayPrivateKey config)
                  (RebroadcastRelays config) (tr ++ [ATimeNow (time_Now ext tr)]))
        as [(e' & _ & Hr)|[(m' & e' & _ & _ & Hr)|(m' & _ & _ & Hr)]];
        rewrite Hr in Hm; simplify_eq; rewrite since_app_assoc; simpl;
        intros Hin; elem_of_cases; by simplify_eq.
    + destruct (mixAndStoreEvent_run ext ev (RelayPrivateKey config)
                  (RebroadcastRelays config) (tr ++ [ATimeNow (time_Now ext tr)]))
        as [(e' & _ & Hr)|[(m' & e' & _ & _ & Hr)|(m' & _ & _ & Hr)]];
        rewrite Hr in Hm; simplify_eq.
      unfold rebroadcastEvent.
      destruct (rebroadcastLoop_attempts ext ev (RebroadcastRelays config) []
                  ((tr ++ [ATimeNow (time_Now ext tr)]) ++
                   [ATimeNow (time_Now ext (tr ++ [ATimeNow (time_Now ext tr)]));
                    ASaveEvent m' None; ABroadcastEvent m';
                    AGoRebroadcast m' (RebroadcastRelays config)]))
        as (attempts & _ & ->).
      simpl. rewrite <-!app_assoc, since_app.
      rewrite !saves_app, saves_attempts. simpl.
      intros Hin; elem_of_cases; by simplify_eq.
Qed.

(** ** The HTTP submission path *)

Lemma string_app_assoc (a b c : string) : (a +:+ b) +:+ c = a +:+ b +:+ c.
Proof.
  induction a as [|x a IH]; [reflexivity|].
  change (String x ((a +:+ b) +:+ c) = String x (a +:+ b +:+ c)).
  by rewrite IH.
Qed.

Lemma contains_app_l (x a b : string) : contains x a → contains x (a +:+ b).
Proof.
  intros (pre & post & ->). exists pre, (post +:+ b).
  by rewrite !string_app_assoc.
Qed.

Lemma contains_app_r (x a b : string) : contains x b → contains x (a +:+ b).
Proof.
  intros (pre & post & ->). exists (a +:+ pre), post.
  by rewrite !string_app_assoc.
Qed.

Lemma contains_li_warning (msg : string) : contains msg (li_warning msg).
Proof. unfold li_warning. do 5 apply contains_app_r. by exists "", "</li>". Qed.

Lemma fold_li_warning_contains (errors : list string) :
  ∀ acc x,
    contains x acc ∨ x ∈ errors →
    contains x (fold_left (λ response err, response +:+ li_warning err)
                  errors acc).
Proof.
  induction errors as [|e errors IH]; intros acc x; simpl.
  - intros [H|H]; [done | by apply elem_of_nil in H].
  - intros [H|H]; apply IH.
    + left. by apply contains_app_l.
    + apply elem_of_cons in H as [->|H]; [left | by right].
      apply contains_app_r, contains_li_warning.
Qed.

Lemma renderResponse_contains (errors : list string) (msg : string) :
  msg ∈ errors → contains msg (renderResponse errors).
Proof.
  intros Hin. unfold renderResponse.
  destruct errors as [|e errors]; [by apply elem_of_nil in Hin|].
  apply contains_app_l, fold_li_warning_contains. by right.
Qed.

Lemma published_app (a b : Trace) :
  published (a ++ b) = published a ++ published b.
Proof. apply omap_app. Qed.

(** Every event a rebroadcast publishes is the event it was given. *)
Lemma published_attempts event relays :
  ∀ attempts e,
    e ∈ published (concat (zip_with (attempt_actions event) relays attempts))
    → e = event.
Proof.
  induction relays as [|url rest IH]; intros [|a attempts] e; simpl;
    try (intros H; by apply elem_of_nil in H).
  rewrite published_app, elem_of_app. intros [H|H]; [|by eapply IH].
  destruct a; simpl in H; elem_of_cases; done.
Qed.

(** C8. The handler hands the synthesised event to [mixAndStoreEvent]
    without asking the admission chain. A POST of "hello" to an open relay
    whose allowed kinds are {30023}: the chain, and with it the protocol
    path, rejects the synthesised kind-1 event with "event kind 1 is not
    supported", and the handler stores and broadcasts its mix, an event of
    a kind that is not allowed, and answers with the success page. *)
Theorem submit_note_stores_disallowed_kind :
  let ext := sample_ext true in
  let config := sample_config [30023] ∅ [] in
  let run := createSubmitNoteHandler ext config (sample_post "hello") [] in
  ∃ event m : Event,
    Sign ext (synthesizedEvent "hello" 100) "sk" = inr event
    ∧ admission ext config sample_ctx event
      = (true, "event kind 1 is not supported")
    ∧ AddEvent ext config sample_ctx event []
      = (Rejected "event kind 1 is not supported", [])
    ∧ Sign ext (mixedEvent event 101) "sk" = inr m
    ∧ saves (snd run) = [(m, None)]
    ∧ ABroadcastEvent m ∈ snd run
    ∧ Kind m = 1 ∧ (Kind m ∉ AllowedKinds config)
    ∧ StatusCode (fst run) = 200
    ∧ Body (fst run) = p_class "success" "Note submitted successfully!".
Proof.
  intros ext config run.
  destruct (Sign ext (synthesizedEvent "hello" 100) "sk")
    as [e|event] eqn:Hs; [vm_compute in Hs; discriminate|].
  exists event.
  destruct (Sign ext (mixedEvent event 101) "sk") as [e|m] eqn:Hm.
  { vm_compute in Hs. injection Hs as <-. vm_compute in Hm. discriminate. }
  exists m.
  vm_compute in Hs. injection Hs as <-.
  vm_compute in Hm. injection Hm as <-.
  split; [reflexivity|].
  split; [vm_compute; reflexivity|].
  split; [vm_compute; reflexivity|].
  split; [reflexivity|].
  split; [vm_compute; reflexivity|].
  split.
  { apply (list_elem_of_lookup_2 _ 3%nat). vm_compute. reflexivity. }
  split; [reflexivity|].
  split.
  { intros Hin%kind_allowed_spec. vm_compute in Hin. discriminate. }
  split; vm_compute; reflexivity.
Qed.

(** ** Which events leave the relay *)

(** On the protocol path one accepted event yields one mixed event, and it
    is the only event stored, broadcast or given to the rebroadcast. *)
Lemma AddEvent_only_mixed_event ext config ctx event tr :
  fst (AddEvent ext config ctx event tr) = Stored →
  ∃ m, Sign ext (mixedEvent event (time_Now ext tr)) (RelayPrivateKey config)
       = inr m
       ∧ events_out (since tr (snd (AddEvent ext config ctx event tr)))
         = [m; m; m].
Proof.
  unfold AddEvent.
  destruct (admission ext config ctx event) as [[] msg]; [done|].
  destruct (mixAndStoreEvent_run ext event (RelayPrivateKey config)
              (RebroadcastRelays config) tr)
    as [(e & Hs & ->)|[(m & e & Hs & Hd & ->)|(m & Hs & Hd & ->)]];
    simpl; [done..|].
  intros _. exists m. by rewrite since_app.
Qed.

(** On the HTTP path the handler's own rebroadcast publishes the signed
    synthesised event, the inbound one, where it reaches a peer. *)
Lemma submit_note_publishes_synthesized ext config r tr event e :
  Sign ext (synthesizedEvent (FormValue_content r) (time_Now ext tr))
    (RelayPrivateKey config) = inr event →
  e ∈ published (since tr (snd (createSubmitNoteHandler ext config r tr))) →
  e = event.
Proof.
  intros Hs.
  destruct (createSubmitNoteHandler_run ext config r tr)
    as [[resp ->]|[->|(ev & Hs' & [(er & tr2 & Hm & ->)|(tr2 & Hm & ->)])]];
    simpl.
  - rewrite since_refl. intros H. by apply elem_of_nil in H.
  - rewrite since_app. intros H. by apply elem_of_nil in H.
  - destruct (mixAndStoreEvent_run ext ev (RelayPrivateKey config)
                (RebroadcastRelays config) (tr ++ [ATimeNow (time_Now ext tr)]))
      as [(e' & _ & Hr)|[(m' & e' & _ & _ & Hr)|(m' & _ & _ & Hr)]];
      rewrite Hr in Hm; simplify_eq; rewrite since_app_assoc; simpl;
      intros H; by apply elem_of_nil in H.
  - rewrite Hs in Hs'. injection Hs' as <-.
    destruct (mixAndStoreEvent_run ext event (RelayPrivateKey config)
                (RebroadcastRelays config) (tr ++ [ATimeNow (time_Now ext tr)]))
      as [(e' & _ & Hr)|[(m' & e' & _ & _ & Hr)|(m' & _ & _ & Hr)]];
      rewrite Hr in Hm; simplify_eq.
    unfold rebroadcastEvent.
    destruct (rebroadcastLoop_attempts ext event (RebroadcastRelays config) []
                ((tr ++ [ATimeNow (time_Now ext tr)]) ++
                 [ATimeNow (time_Now ext (tr ++ [ATimeNow (time_Now ext tr)]));
                  ASaveEvent m' None; ABroadcastEvent m';
                  AGoRebroadcast m' (RebroadcastRelays config)]))
      as (attempts & _ & ->).
    simpl. rewrite <-!app_assoc, since_app, !published_app. simpl.
    apply published_attempts.
Qed.

(** C9, on the HTTP path. A POST of "hello" to an open relay with the peer
    wss://peer, the clock reading 100 in the handler and 101 in the mixing
    step: the mixed event dated 101 is stored, broadcast and given to the
    rebroadcast goroutine, and the handler's own rebroadcast then publishes
    the inbound event dated 100, a different event, to the peer. *)
Theorem submit_note_rebroadcasts_inbound_event :
  let ext := sample_ext true in
  let config := sample_config [1; 30023] ∅ ["wss://peer"] in
  let run := createSubmitNoteHandler ext config (sample_post "hello") [] in
  ∃ inbound m : Event,
    Sign ext (synthesizedEvent "hello" 100) "sk" = inr inbound
    ∧ Sign ext (mixedEvent inbound 101) "sk" = inr m
    ∧ saves (snd run) = [(m, None)]
    ∧ AGoRebroadcast m ["wss://peer"] ∈ snd run
    ∧ APublish "wss://peer" inbound None ∈ snd run
    ∧ published (snd run) = [inbound]
    ∧ CreatedAt inbound = 100 ∧ CreatedAt m = 101
    ∧ inbound ≠ m.
Proof.
  intros ext config run.
  destruct (Sign ext (synthesizedEvent "hello" 100) "sk")
    as [e|inbound] eqn:Hs; [vm_compute in Hs; discriminate|].
  exists inbound.
  destruct (Sign ext (mixedEvent inbound 101) "sk") as [e|m] eqn:Hm.
  { vm_compute in Hs. injection Hs as <-. vm_compute in Hm. discriminate. }
  exists m.
  vm_compute in Hs. injection Hs as <-.
  vm_compute in Hm. injection Hm as <-.
  assert (∀ (a : Action) (l : Trace) (i : nat), l !! i = Some a → a ∈ l)
    as Hlookup by (intros a l i; apply list_elem_of_lookup_2).
  split; [reflexivity|]. split; [reflexivity|].
  split; [vm_compute; reflexivity|].
  split; [apply (Hlookup _ _ 4%nat); vm_compute; reflexivity|].
  split; [apply (Hlookup _ _ 6%nat); vm_compute; reflexivity|].
  split; [vm_compute; reflexivity|].
  split; [reflexivity|]. split; [reflexivity|].
  discriminate.
Qed.

(** ** Configuration: no peer configured *)

Lemma rebroadcastEvent_unreachable_peer ext event url tr err :
  net_RelayConnect ext tr url = Some err →
  rebroadcastEvent ext event [url] tr
  = (["failed to connect to relay " +:+ url +:+ ": " +:+ Error err],
     tr ++ [ARelayConnect url (Some err)]).
Proof.
  intros Hc. unfold rebroadcastEvent. simpl. unfold rebroadcastOne.
  by rewrite Hc.
Qed.

(** * Worked instances *)

Lemma kind_not_allowed_9999 : (9999 : Z) ∉ [1; 30023].
Proof. intros H%kind_allowed_spec. vm_compute in H. discriminate. Qed.

Lemma whitelist_abc_nonempty : ({["abc" := true]} : gmap string bool) ≠ ∅.
Proof. intros H. apply (f_equal size) in H. vm_compute in H. discriminate. Qed.

Lemma whitelist_abc_without_xyz :
  ({["abc" := true]} : gmap string bool) !! "xyz" ≠ Some true.
Proof. intros H. vm_compute in H. discriminate. Qed.

(** The scenario of the spec: kinds {1, 30023}, an event of kind 9999. *)
Example kind_9999_rejected :
  createRejectUnsupportedKinds [1; 30023] sample_ctx
    (sample_event "author" 50 9999 "hello")
  = (true, "event kind 9999 is not supported").
Proof. vm_compute. reflexivity. Qed.

(** The scenario of the spec: relayA unreachable, relayB reached. *)
Example rebroadcast_one_peer_down :
  fst (rebroadcastEvent (sample_ext true)
         (sample_event "relay" 100 1 "hello") ["wss://down"; "wss://peer"] [])
  = ["failed to connect to relay wss://down: connection refused"].
Proof. vm_compute. reflexivity. Qed.

Example loadConfig_whitelist :
  (parseWhitelist "abc, ,xyz" : gmap string bool) !! "xyz" = Some true
  ∧ size (parseWhitelist "") = 0%nat
  ∧ parseAllowedKinds "1, 30023,x,-5,+7" = [1; 30023; -5; 7].
Proof. vm_compute. done. Qed.

Lemma mixed_event_fields_witness :
  let ext := sample_ext true in
  let config := sample_config [1; 30023] ∅ ["wss://peer"] in
  let event := sample_event "author" 50 1 "hello" in
  fst (admission ext config sample_ctx event) = false
  ∧ Forall (λ m, Content m = "hello" ∧ Kind m = 1 ∧ Tags m = [["t"; "demo"]]
                 ∧ PubKey m = "pub-of-sk" ∧ CreatedAt m = 100)
      (events_out (since [] (snd (AddEvent ext config sample_ctx event [])))).
Proof.
  intros ext config event.
  assert (fst (admission ext config sample_ctx event) = false) as Hadm
    by (vm_compute; reflexivity).
  split; [exact Hadm|].
  apply Forall_forall. intros m Hin.
  destruct (mixed_event_fields ext config sample_ctx event [] Hadm)
    as [Hfields _].
  destruct (Hfields m Hin) as (Hc & Hk & Ht & Hpk & Hcr).
  vm_compute in Hpk. injection Hpk as Hpk.
  vm_compute in Hc, Hk, Ht, Hcr.
  repeat split; by symmetry || assumption.
Defined.

Lemma pubkey_allowlist_check_witness :
  let ext := sample_ext true in
  let closed := sample_config [1; 30023] {["abc" := true]} [] in
  let open := sample_config [1; 30023] ∅ [] in
  let event := sample_event "xyz" 50 1 "hello" in
  admission ext closed sample_ctx event = (true, "pubkey not whitelisted")
  ∧ createRejectNonWhitelistedPubkeys (WhitelistedPubkeys open) sample_ctx
      event = (false, "").
Proof.
  intros ext closed open event. split.
  - apply (pubkey_allowlist_check ext closed sample_ctx event).
    + exact whitelist_abc_nonempty.
    + exact whitelist_abc_without_xyz.
  - apply (pubkey_allowlist_check ext open sample_ctx event). reflexivity.
Defined.

Lemma kind_allowlist_check_witness :
  createRejectUnsupportedKinds [1; 30023] sample_ctx
    (sample_event "author" 50 9999 "hello")
  = (true, "event kind " +:+ pretty (9999 : Z) +:+ " is not supported")
  ∧ createRejectUnsupportedKinds [1; 30023] sample_ctx
      (sample_event "author" 50 30023 "hello") = (false, "").
Proof.
  split.
  - apply (kind_allowlist_check [1; 30023] sample_ctx
             (sample_event "author" 50 9999 "hello")).
    exact kind_not_allowed_9999.
  - apply (kind_allowlist_check [1; 30023] sample_ctx
             (sample_event "author" 50 30023 "hello")).
    simpl. apply list_elem_of_further, list_elem_of_here.
Defined.

Lemma pubkey_check_before_kind_check_witness :
  admission (sample_ext true) (sample_config [1; 30023] {["abc" := true]} [])
    sample_ctx (sample_event "xyz" 50 9999 "hello")
  = (true, "pubkey not whitelisted").
Proof.
  apply (pubkey_check_before_kind_check (sample_ext true)
           (sample_config [1; 30023] {["abc" := true]} []) sample_ctx
           (sample_event "xyz" 50 9999 "hello")).
  - exact whitelist_abc_nonempty.
  - exact whitelist_abc_without_xyz.
  - exact kind_not_allowed_9999.
Defined.

Lemma mixed_createdAt_is_clock_witness :
  let ext := sample_ext true in
  let config := sample_config [1; 30023] ∅ [] in
  let past := sample_event "author" 50 1 "hello" in
  let future := sample_event "author" 200 1 "hello" in
  let out event :=
    events_out (since [] (snd (AddEvent ext config sample_ctx event []))) in
  out past ≠ [] ∧ out future ≠ []
  ∧ Forall (λ m, CreatedAt m = 100 ∧ CreatedAt past ≤ CreatedAt m) (out past)
  ∧ Forall (λ m, CreatedAt m = 100 ∧ ¬ CreatedAt future ≤ CreatedAt m)
      (out future).
Proof.
  intros ext config past future out.
  split; [vm_compute; discriminate|]. split; [vm_compute; discriminate|].
  assert (fst (admission ext config sample_ctx past) = false) as Hpast
    by (vm_compute; reflexivity).
  assert (fst (admission ext config sample_ctx future) = false) as Hfuture
    by (vm_compute; reflexivity).
  split; apply Forall_forall; intros m Hin.
  - destruct (mixed_createdAt_is_clock ext config sample_ctx past []
                Hpast) as [Hclock _].
    destruct (Hclock m Hin) as [Hcr Hge]. split; [exact Hcr|].
    apply Hge. vm_compute. discriminate.
  - destruct (mixed_createdAt_is_clock ext config sample_ctx future []
                Hfuture) as [Hclock _].
    destruct (Hclock m Hin) as [Hcr Hge]. split; [exact Hcr|].
    intros Hle%Hge. vm_compute in Hle. by apply Hle.
Defined.

Lemma save_failure_aborts_witness :
  let ext := sample_ext false in
  let config := sample_config [1; 30023] ∅ ["wss://peer"] in
  let event := sample_event "author" 50 1 "hello" in
  fst (AddEvent ext config sample_ctx event [])
  = Failed (Errorf_w "failed to save mixed event: "
              (ErrorString "database is locked"))
  ∧ fanout (snd (AddEvent ext config sample_ctx event [])) = []
  ∧ Body (fst (createSubmitNoteHandler ext config (sample_post "hello") []))
    = p_class "error" "Failed to store event"
  ∧ fanout (snd (createSubmitNoteHandler ext config (sample_post "hello") []))
    = [].
Proof.
  intros ext config event.
  destruct (saves (since [] (snd (AddEvent ext config sample_ctx event []))))
    as [|[m1 [err1|]] l1] eqn:E1; try (vm_compute in E1; discriminate).
  destruct (saves (since [] (snd (createSubmitNoteHandler ext config
                                    (sample_post "hello") []))))
    as [|[m2 [err2|]] l2] eqn:E2; try (vm_compute in E2; discriminate).
  destruct (save_failure_aborts ext config sample_ctx event
              (sample_post "hello") [] m1 err1) as (_ & Hadd & _).
  destruct (save_failure_aborts ext config sample_ctx event
              (sample_post "hello") [] m2 err2) as (_ & _ & Hsubmit).
  simpl in Hadd, Hsubmit.
  rewrite E1 in Hadd. rewrite E2 in Hsubmit.
  destruct (Hadd (list_elem_of_here _ _)) as ((e & Hfailed & Hunwrap) & _ & Hfan1).
  destruct (Hsubmit (list_elem_of_here _ _)) as (Hbody & _ & Hfan2).
  split; [vm_compute; reflexivity|].
  split; [exact Hfan1|]. split; [exact Hbody | exact Hfan2].
Defined.

(** * Further properties *)

(** ** Strings and numbers of the configuration *)

Lemma Split_length s sep :
  length (GoStrings.Split s sep) = S (count_char sep s).
Proof.
  induction s as [|c s IH]; [reflexivity|]. simpl.
  destruct (Ascii.eqb c sep); simpl; [by rewrite IH|].
  destruct (GoStrings.Split s sep); simpl in *; done.
Qed.

Lemma Split_no_sep s sep : count_char sep s = 0%nat → GoStrings.Split s sep = [s].
Proof.
  induction s as [|c s IH]; [reflexivity|]. simpl.
  destruct (Ascii.eqb c sep); [done|]. intros H. by rewrite IH.
Qed.

Lemma Split_app_sep a b sep :
  count_char sep a = 0%nat →
  GoStrings.Split (a +:+ String sep b) sep = a :: GoStrings.Split b sep.
Proof.
  induction a as [|c a IH].
  - intros _. change ("" +:+ String sep b) with (String sep b). simpl.
    by rewrite Ascii.eqb_refl.
  - change (String c a +:+ String sep b) with (String c (a +:+ String sep b)).
    simpl. destruct (Ascii.eqb c sep); [done|]. intros H. by rewrite IH.
Qed.

Lemma Split_concat (l : list string) sep :
  l ≠ [] →
  Forall (λ x, count_char sep x = 0%nat) l →
  GoStrings.Split (String.concat (String sep "") l) sep = l.
Proof.
  induction l as [|x l IH]; [done|]. intros _ Hall.
  apply Forall_cons in Hall as [Hx Hl].
  destruct l as [|y l]; [by apply Split_no_sep|].
  change (String.concat (String sep "") (x :: y :: l))
    with (x +:+ String sep "" +:+ String.concat (String sep "") (y :: l)).
  change (String sep "" +:+ ?t) with (String sep t).
  rewrite Split_app_sep by done. by rewrite IH.
Qed.

(** Case analysis on the eight bits of a character. *)
Ltac ascii_cases c :=
  let b0 := fresh in let b1 := fresh in let b2 := fresh in
  let b3 := fresh in let b4 := fresh in let b5 := fresh in
  let b6 := fresh in let b7 := fresh in
  destruct c as [b0 b1 b2 b3 b4 b5 b6 b7];
  destruct b0, b1, b2, b3, b4, b5, b6, b7.

Lemma strip_any_spaces_visible c rest :
  visible c = true → GoStrings.strip_any GoStrings.spaces (String c rest) = None.
Proof.
  ascii_cases c; intros H;
    try (vm_compute in H; discriminate); reflexivity.
Qed.

Lemma strip_any_rev_spaces_visible c rest :
  visible c = true →
  GoStrings.strip_any (List.map String.rev GoStrings.spaces) (String c rest)
  = None.
Proof.
  ascii_cases c; intros H;
    try (vm_compute in H; discriminate); reflexivity.
Qed.

Lemma string_app_nil_r (s : string) : s +:+ "" = s.
Proof.
  induction s as [|c s IH]; [reflexivity|].
  change (String c (s +:+ "") = String c s). by rewrite IH.
Qed.

Lemma rev_app_spec (s t : string) :
  String.rev_app s t = String.rev s +:+ t.
Proof.
  unfold String.rev. revert t.
  induction s as [|c s IH]; intros t; [reflexivity|]. simpl.
  rewrite IH, (IH (String c "")). by rewrite string_app_assoc.
Qed.

Lemma rev_snoc (s : string) (c : ascii) :
  String.rev (s +:+ String c "") = String c (String.rev s).
Proof.
  induction s as [|d s IH]; [reflexivity|].
  change (String d s +:+ String c "") with (String d (s +:+ String c "")).
  unfold String.rev at 1. simpl. rewrite rev_app_spec, IH.
  unfold String.rev at 2. simpl. by rewrite rev_app_spec.
Qed.

Lemma rev_cons (s : string) (c : ascii) :
  String.rev (String c s) = String.rev s +:+ String c "".
Proof. unfold String.rev at 1. simpl. by rewrite rev_app_spec. Qed.

Lemma rev_involutive (s : string) : String.rev (String.rev s) = s.
Proof.
  induction s as [|c s IH]; [reflexivity|].
  by rewrite rev_cons, rev_snoc, IH.
Qed.

Lemma trim_left_stuck ps fuel s :
  GoStrings.strip_any ps s = None → GoStrings.trim_left ps fuel s = s.
Proof. intros H. destruct fuel; simpl; [done | by rewrite H]. Qed.

Lemma TrimLeftSpace_visible c rest :
  visible c = true → GoStrings.TrimLeftSpace (String c rest) = String c rest.
Proof.
  intros H. unfold GoStrings.TrimLeftSpace.
  by apply trim_left_stuck, strip_any_spaces_visible.
Qed.

Lemma TrimRightSpace_visible s d :
  visible d = true →
  GoStrings.TrimRightSpace (s +:+ String d "") = s +:+ String d "".
Proof.
  intros H. unfold GoStrings.TrimRightSpace. rewrite rev_snoc.
  rewrite trim_left_stuck by by apply strip_any_rev_spaces_visible.
  by rewrite <-rev_snoc, rev_involutive.
Qed.

(** [strings.TrimSpace] leaves alone a string that starts and ends with a
    visible ASCII character. *)
Lemma TrimSpace_visible (c d : ascii) (s : string) :
  visible c = true → visible d = true →
  GoStrings.TrimSpace (String c "") = String c ""
  ∧ GoStrings.TrimSpace (String c (s +:+ String d ""))
    = String c (s +:+ String d "").
Proof.
  intros Hc Hd. unfold GoStrings.TrimSpace. split.
  - rewrite TrimLeftSpace_visible by done.
    by apply (TrimRightSpace_visible "" c).
  - rewrite TrimLeftSpace_visible by done.
    by apply (TrimRightSpace_visible (String c s) d).
Qed.

Lemma TrimSpace_trimmed (s : string) :
  trimmed s = true → GoStrings.TrimSpace s = s.
Proof.
  unfold trimmed. destruct s as [|c rest]; [done|].
  destruct (String.rev (String c rest)) as [|d t] eqn:Hrev; [done|].
  intros [Hc Hd]%andb_prop.
  unfold GoStrings.TrimSpace. rewrite TrimLeftSpace_visible by done.
  rewrite <-(rev_involutive (String c rest)), Hrev, rev_cons.
  by apply TrimRightSpace_visible.
Qed.

Lemma all_chars_app P a b :
  all_chars P (a +:+ b) = all_chars P a && all_chars P b.
Proof.
  induction a as [|c a IH]; [reflexivity|].
  change (String c a +:+ b) with (String c (a +:+ b)). simpl.
  by rewrite IH, andb_assoc.
Qed.

Lemma all_chars_rev P s : all_chars P (String.rev s) = all_chars P s.
Proof.
  induction s as [|c s IH]; [reflexivity|].
  rewrite rev_cons, all_chars_app, IH. simpl.
  rewrite andb_true_r. apply andb_comm.
Qed.

Lemma all_chars_visible_trimmed s :
  s ≠ "" → all_chars visible s = true → trimmed s = true.
Proof.
  intros Hne Hall. unfold trimmed.
  pose proof (all_chars_rev visible s) as Hrev. rewrite Hall in Hrev.
  destruct s as [|c rest]; [done|].
  destruct (String.rev (String c rest)) as [|d t] eqn:E.
  - apply (f_equal String.rev) in E. by rewrite rev_involutive in E.
  - simpl in Hall, Hrev. apply andb_prop in Hall as [-> _].
    by apply andb_prop in Hrev as [-> _].
Qed.

Lemma all_chars_impl (P Q : ascii → bool) s :
  (∀ c, P c = true → Q c = true) →
  all_chars P s = true → all_chars Q s = true.
Proof.
  intros HPQ. induction s as [|c s IH]; [done|]. simpl.
  intros [Hc Hs]%andb_prop. by rewrite (HPQ c Hc), IH.
Qed.

Lemma all_chars_count_char (P : ascii → bool) sep s :
  P sep = false → all_chars P s = true → count_char sep s = 0%nat.
Proof.
  intros Hsep. induction s as [|c s IH]; [done|]. simpl.
  intros [Hc Hs]%andb_prop.
  destruct (Ascii.eqb_spec c sep) as [->|_]; [congruence | by apply IH].
Qed.

Lemma decimal_char_visible c : decimal_char c = true → visible c = true.
Proof.
  ascii_cases c; intros H;
    try (vm_compute in H; discriminate); reflexivity.
Qed.

Lemma digit_pretty_N_char (x : N) :
  (x < 10)%N → GoStrconv.digit (pretty_N_char x) = Some (Z.of_N x).
Proof.
  intros H. rewrite <-(N2Nat.id x).
  assert (N.to_nat x < 10)%nat as Hn by lia.
  revert Hn. generalize (N.to_nat x). intros n Hn.
  do 10 (destruct n as [|n]; [reflexivity|]). lia.
Qed.

Lemma pretty_N_go_acc (x : N) :
  ∀ s, pretty_N_go x s = pretty_N_go x "" +:+ s.
Proof.
  induction (N.lt_wf_0 x) as [x _ IH]. intros s.
  destruct (decide (0 < x)%N) as [Hpos|Hzero].
  - rewrite (pretty_N_go_step x s), (pretty_N_go_step x "") by done.
    assert (x `div` 10 < x)%N as Hlt by (by apply N.div_lt).
    rewrite (IH _ Hlt (String _ s)), (IH _ Hlt (String _ "")).
    by rewrite string_app_assoc.
  - assert (x = 0%N) as -> by lia. by rewrite !pretty_N_go_0.
Qed.

Lemma pretty_N_go_snoc (x : N) :
  (0 < x)%N →
  pretty_N_go x ""
  = pretty_N_go (x `div` 10) "" +:+ String (pretty_N_char (x `mod` 10)) "".
Proof.
  intros H. by rewrite (pretty_N_go_step x "") , pretty_N_go_acc.
Qed.

Lemma digits_app acc a b :
  GoStrconv.digits acc (a +:+ b)
  = match GoStrconv.digits acc a with
    | Some v => GoStrconv.digits v b
    | None => None
    end.
Proof.
  revert acc. induction a as [|c a IH]; intros acc; [reflexivity|].
  change (String c a +:+ b) with (String c (a +:+ b)). simpl.
  destruct (GoStrconv.digit c); [apply IH | done].
Qed.

Lemma digits_pretty_N_go (x : N) :
  GoStrconv.digits 0 (pretty_N_go x "") = Some (Z.of_N x).
Proof.
  induction (N.lt_wf_0 x) as [x _ IH].
  destruct (decide (0 < x)%N) as [Hpos|Hzero].
  - rewrite pretty_N_go_snoc, digits_app by done.
    rewrite IH by (by apply N.div_lt). simpl.
    rewrite digit_pretty_N_char by (apply N.mod_lt; lia).
    f_equal. rewrite (N.div_mod x 10) at 3 by lia. lia.
  - assert (x = 0%N) as -> by lia. by rewrite pretty_N_go_0.
Qed.

Lemma all_chars_pretty_N_go (x : N) :
  all_chars decimal_char (pretty_N_go x "") = true.
Proof.
  induction (N.lt_wf_0 x) as [x _ IH].
  destruct (decide (0 < x)%N) as [Hpos|Hzero].
  - rewrite pretty_N_go_snoc, all_chars_app by done.
    rewrite IH by (by apply N.div_lt). simpl.
    unfold decimal_char. rewrite digit_pretty_N_char by (apply N.mod_lt; lia).
    done.
  - assert (x = 0%N) as -> by lia. by rewrite pretty_N_go_0.
Qed.

Lemma pretty_N_go_nonempty (x : N) : (0 < x)%N → pretty_N_go x "" ≠ "".
Proof.
  intros H. rewrite pretty_N_go_snoc by done.
  by destruct (pretty_N_go (x `div` 10) "").
Qed.

Lemma digit_not_sign c d :
  GoStrconv.digit c = Some d →
  Ascii.eqb c "-"%char = false ∧ Ascii.eqb c "+"%char = false.
Proof.
  ascii_cases c; intros H;
    try (vm_compute in H; discriminate); done.
Qed.

Lemma digit_range c d : GoStrconv.digit c = Some d → 0 ≤ d ≤ 9.
Proof.
  unfold GoStrconv.digit.
  destruct (_ && _) eqn:E; [|done]. intros [= <-].
  apply andb_prop in E as [?%Z.leb_le ?%Z.leb_le]. lia.
Qed.

Lemma digits_nonneg s : ∀ acc n,
  0 ≤ acc → GoStrconv.digits acc s = Some n → 0 ≤ n.
Proof.
  induction s as [|c s IH]; intros acc n Hacc; simpl.
  - intros [= <-]. done.
  - destruct (GoStrconv.digit c) as [d|] eqn:Hd; [|done].
    apply digit_range in Hd. apply IH. lia.
Qed.

Lemma Atoi_unsigned s n :
  s ≠ "" → GoStrconv.digits 0 s = Some n → n < 2 ^ 63 →
  GoStrconv.Atoi s = Some n.
Proof.
  destruct s as [|c rest]; [done|]. intros _ Hd Hn.
  assert (∃ d, GoStrconv.digit c = Some d) as [d Hc].
  { simpl in Hd. destruct (GoStrconv.digit c); [by eexists | done]. }
  destruct (digit_not_sign c d Hc) as [Hminus Hplus].
  unfold GoStrconv.Atoi. rewrite Hminus, Hplus.
  unfold GoStrconv.unsigned. rewrite Hd.
  by destruct (Z.ltb_spec n (2 ^ 63)); [|lia].
Qed.

Lemma Atoi_negative s n :
  s ≠ "" → GoStrconv.digits 0 s = Some n → n ≤ 2 ^ 63 →
  GoStrconv.Atoi ("-" +:+ s) = Some (- n).
Proof.
  intros Hne Hd Hn. change ("-" +:+ s) with (String "-"%char s).
  unfold GoStrconv.Atoi. rewrite Ascii.eqb_refl.
  unfold GoStrconv.unsigned. destruct s as [|c rest]; [done|].
  rewrite Hd. by destruct (Z.leb_spec n (2 ^ 63)); [|lia].
Qed.

Lemma pretty_Npos (p : positive) :
  pretty (N.pos p) = pretty_N_go (N.pos p) "".
Proof. unfold pretty, pretty_N. by destruct (decide (N.pos p = 0%N)). Qed.

(** [strconv.Atoi] reads back what [%d] prints, for every int64. *)
Lemma Atoi_pretty (z : Z) :
  - 2 ^ 63 ≤ z < 2 ^ 63 → GoStrconv.Atoi (pretty z) = Some z.
Proof.
  intros Hz. destruct z as [|p|p].
  - reflexivity.
  - change (pretty (Z.pos p)) with (pretty (N.pos p)). rewrite pretty_Npos.
    apply Atoi_unsigned; [by apply pretty_N_go_nonempty | | lia].
    by rewrite digits_pretty_N_go.
  - change (pretty (Z.neg p)) with ("-" +:+ pretty (N.pos p)).
    rewrite pretty_Npos.
    change (Z.neg p) with (- Z.of_N (N.pos p)).
    apply Atoi_negative; [by apply pretty_N_go_nonempty | | simpl; lia].
    by rewrite digits_pretty_N_go.
Qed.

Lemma all_chars_pretty_Z (z : Z) : all_chars decimal_char (pretty z) = true.
Proof.
  destruct z as [|p|p].
  - reflexivity.
  - change (pretty (Z.pos p)) with (pretty (N.pos p)). rewrite pretty_Npos.
    apply all_chars_pretty_N_go.
  - change (pretty (Z.neg p)) with (String "-"%char (pretty (N.pos p))).
    rewrite pretty_Npos. simpl. by rewrite all_chars_pretty_N_go.
Qed.

Lemma pretty_Z_nonempty (z : Z) : pretty z ≠ "".
Proof.
  destruct z as [|p|p]; [done| |done].
  change (pretty (Z.pos p)) with (pretty (N.pos p)). rewrite pretty_Npos.
  by apply pretty_N_go_nonempty.
Qed.

Lemma TrimSpace_pretty (z : Z) : GoStrings.TrimSpace (pretty z) = pretty z.
Proof.
  apply TrimSpace_trimmed, all_chars_visible_trimmed;
    [apply pretty_Z_nonempty|].
  eapply all_chars_impl; [apply decimal_char_visible|].
  apply all_chars_pretty_Z.
Qed.

Lemma Atoi_range s k : GoStrconv.Atoi s = Some k → - 2 ^ 63 ≤ k < 2 ^ 63.
Proof.
  unfold GoStrconv.Atoi. destruct s as [|c rest]; [done|].
  destruct (Ascii.eqb c "-"%char).
  - destruct (GoStrconv.unsigned rest) as [n|] eqn:Hu; [|done].
    destruct (Z.leb_spec n (2 ^ 63)); [|done]. intros [= <-].
    unfold GoStrconv.unsigned in Hu. destruct rest; [done|].
    apply digits_nonneg in Hu; lia.
  - destruct (GoStrconv.unsigned _) as [n|] eqn:Hu; [|done].
    destruct (Z.ltb_spec n (2 ^ 63)); [|done]. intros [= <-].
    unfold GoStrconv.unsigned in Hu.
    destruct (if Ascii.eqb c "+"%char then rest else String c rest);
      [done|].
    apply digits_nonneg in Hu; lia.
Qed.

Lemma fold_kinds_omap (fields : list string) : ∀ acc : list Z,
  fold_left
    (λ kinds kindStr,
       match GoStrconv.Atoi (GoStrings.TrimSpace kindStr) with
       | Some kind => kinds ++ [kind]
       | None => kinds
       end) fields acc
  = acc ++ omap (λ f, GoStrconv.Atoi (GoStrings.TrimSpace f)) fields.
Proof.
  induction fields as [|f fields IH]; intros acc; simpl.
  - by rewrite app_nil_r.
  - rewrite IH. destruct (GoStrconv.Atoi _); [|done].
    by rewrite <-app_assoc.
Qed.

Lemma parseAllowedKinds_omap (kindsStr : string) :
  parseAllowedKinds kindsStr
  = omap (λ f, GoStrconv.Atoi (GoStrings.TrimSpace f))
         (GoStrings.Split kindsStr ","%char).
Proof. unfold parseAllowedKinds. by rewrite fold_kinds_omap. Qed.

Lemma omap_Atoi_pretty (kinds : list Z) :
  Forall int64 kinds →
  omap (λ f, GoStrconv.Atoi (GoStrings.TrimSpace f)) (pretty <$> kinds)
  = kinds.
Proof.
  induction 1 as [|z zs Hz _ IH]; [done|]. csimpl.
  rewrite TrimSpace_pretty, Atoi_pretty by done. csimpl. by rewrite IH.
Qed.

(** X5. [parseAllowedKinds] reads back a list of 64-bit integers written in
    decimal and joined by commas. *)
Theorem parseAllowedKinds_reads_back (kinds : list Z) :
  Forall int64 kinds →
  parseAllowedKinds (String.concat "," (pretty <$> kinds)) = kinds.
Proof.
  intros Hall. rewrite parseAllowedKinds_omap.
  destruct kinds as [|k kinds]; [reflexivity|].
  rewrite Split_concat.
  - by apply omap_Atoi_pretty.
  - done.
  - apply Forall_fmap, Forall_forall. intros z _. simpl.
    apply (all_chars_count_char decimal_char); [reflexivity|].
    apply all_chars_pretty_Z.
Qed.

(** X: bounds and skipping *)
Theorem parseAllowedKinds_entries (kindsStr : string) (k : Z) :
  k ∈ parseAllowedKinds kindsStr ↔
  ∃ field, field ∈ GoStrings.Split kindsStr ","%char
           ∧ GoStrconv.Atoi (GoStrings.TrimSpace field) = Some k.
Proof. rewrite parseAllowedKinds_omap. apply list_elem_of_omap. Qed.

(** ** Configuration loading *)

Lemma fold_whitelist_lookup (fields : list string) :
  ∀ (m : gmap string bool) (k : string),
    fold_left
      (λ (m : gmap string bool) pubkey,
         let trimmedPubkey := GoStrings.TrimSpace pubkey in
         if String.eqb trimmedPubkey "" then m
         else <[trimmedPubkey := true]> m) fields m !! k
    = if decide (k ≠ "" ∧ k ∈ GoStrings.TrimSpace <$> fields)
      then Some true else m !! k.
Proof.
  induction fields as [|f fields IH]; intros m k.
  - simpl. destruct (decide _) as [[_ H]|_]; [|done].
    by apply elem_of_nil in H.
  - simpl fold_left. rewrite IH. rewrite fmap_cons.
    destruct (decide (k ≠ "" ∧ k ∈ GoStrings.TrimSpace <$> fields))
      as [[Hk Hin]|Hnot].
    + rewrite decide_True; [done|]. split; [done | by right].
    + destruct (String.eqb_spec (GoStrings.TrimSpace f) "") as [Hblank|Hfull].
      * destruct (decide _) as [[Hk Hin]|_]; [|done].
        apply elem_of_cons in Hin as [->|Hin]; [done|]. by destruct Hnot.
      * destruct (decide (k = GoStrings.TrimSpace f)) as [->|Hne].
        -- rewrite lookup_insert_eq, decide_True; [done|].
           split; [done | by left].
        -- rewrite lookup_insert_ne by done.
           destruct (decide _) as [[Hk Hin]|_]; [|done].
           apply elem_of_cons in Hin as [->|Hin]; [done|]. by destruct Hnot.
Qed.

Lemma parseWhitelist_lookup (whitelistStr k : string) :
  parseWhitelist whitelistStr !! k
  = if decide (k ≠ "" ∧ k ∈ GoStrings.TrimSpace
                          <$> GoStrings.Split whitelistStr ","%char)
    then Some true else None.
Proof. unfold parseWhitelist. by rewrite fold_whitelist_lookup, lookup_empty. Qed.

Lemma loadConfig_fields env config :
  loadConfig env = inr config →
  RelayPrivateKey config = Getenv env "RELAY_PRIVATE_KEY"
  ∧ RelayPrivateKey config ≠ ""
  ∧ AllowedKinds config = parseAllowedKinds (getEnv env "ALLOWED_KINDS" "1,30023")
  ∧ WhitelistedPubkeys config
    = parseWhitelist (getEnv env "WHITELISTED_PUBKEYS" "")
  ∧ RebroadcastRelays config
    = GoStrings.TrimSpace
      <$> GoStrings.Split (getEnv env "REBROADCAST_RELAYS" "") ","%char.
Proof.
  unfold loadConfig.
  destruct (String.eqb_spec (Getenv env "RELAY_PRIVATE_KEY") "") as [|Hkey];
    [done|].
  by intros [= <-].
Qed.

(** X1. [loadConfig] fails in one case only, when RELAY_PRIVATE_KEY is unset or
    empty, and then with the message "RELAY_PRIVATE_KEY not set in
    environment"; otherwise it returns a configuration whose private key
    is the variable's value. No other variable can make it fail. *)
Theorem loadConfig_private_key (env : Environ) :
  match loadConfig env with
  | inl err =>
      (env !! "RELAY_PRIVATE_KEY" = None
       ∨ env !! "RELAY_PRIVATE_KEY" = Some "")
      ∧ err = ErrorString "RELAY_PRIVATE_KEY not set in environment"
  | inr config =>
      env !! "RELAY_PRIVATE_KEY" = Some (RelayPrivateKey config)
      ∧ RelayPrivateKey config ≠ ""
  end.
Proof.
  unfold loadConfig, Getenv.
  destruct (env !! "RELAY_PRIVATE_KEY") as [key|] eqn:Hkey; simpl.
  - destruct (String.eqb_spec key "") as [->|Hne]; [by split; [right|]|].
    done.
  - by split; [left|].
Qed.

(** X2. The pubkey allowlist of a loaded configuration maps a key to a value
    exactly when the value is true and the key is the non-empty trimmed
    form of a comma-separated field of WHITELISTED_PUBKEYS: blank fields
    are dropped and no key is ever mapped to false. *)
Theorem loadConfig_whitelist_entries (env : Environ) (config : Config)
    (k : string) (v : bool) :
  loadConfig env = inr config →
  WhitelistedPubkeys config !! k = Some v ↔
  v = true ∧ k ≠ ""
  ∧ k ∈ GoStrings.TrimSpace
        <$> GoStrings.Split (getEnv env "WHITELISTED_PUBKEYS" "") ","%char.
Proof.
  intros (_ & _ & _ & -> & _)%loadConfig_fields.
  rewrite parseWhitelist_lookup.
  destruct (decide _) as [[Hk Hin]|Hnot].
  - split; [by intros [= <-] | by intros [-> _]].
  - split; [done | intros (_ & Hk & Hin); by destruct Hnot].
Qed.

Lemma parseWhitelist_empty (whitelistStr : string) :
  parseWhitelist whitelistStr = ∅ ↔
  Forall (λ f, f = "")
    (GoStrings.TrimSpace <$> GoStrings.Split whitelistStr ","%char).
Proof.
  rewrite map_empty, Forall_forall. split.
  - intros Hnone f Hin. specialize (Hnone f).
    rewrite parseWhitelist_lookup in Hnone.
    destruct (decide (f = "")) as [|Hne]; [done|].
    by rewrite decide_True in Hnone.
  - intros Hall k. rewrite parseWhitelist_lookup.
    destruct (decide _) as [[Hk Hin]|_]; [|done]. by destruct (Hk (Hall k Hin)).
Qed.

(** X3. For a loaded configuration the pubkey policy passes an event exactly
    when every field of WHITELISTED_PUBKEYS is blank, or the event's
    publicKey is non-empty and equals the trimmed form of a field. *)
Theorem loaded_pubkey_policy (env : Environ) (config : Config)
    (ctx : Context) (event : Event) :
  loadConfig env = inr config →
  let entries :=
    GoStrings.TrimSpace
    <$> GoStrings.Split (getEnv env "WHITELISTED_PUBKEYS" "") ","%char in
  fst (createRejectNonWhitelistedPubkeys (WhitelistedPubkeys config) ctx event)
  = false
  ↔ Forall (λ f, f = "") entries
    ∨ (PubKey event ≠ "" ∧ PubKey event ∈ entries).
Proof.
  intros (_ & _ & _ & -> & _)%loadConfig_fields entries.
  unfold createRejectNonWhitelistedPubkeys.
  destruct (bool_decide _) eqn:Hsz.
  - apply whitelist_disabled, parseWhitelist_empty in Hsz. simpl.
    split; [by left | done].
  - assert (¬ Forall (λ f, f = "") entries) as Hsome.
    { intros H%parseWhitelist_empty%whitelist_disabled. congruence. }
    rewrite parseWhitelist_lookup. fold entries.
    destruct (decide _) as [[Hk Hin]|Hnot]; simpl.
    + split; [by right | done].
    + split; [done | intros [H|H]; [by destruct Hsome | by destruct Hnot]].
Qed.

(** X4. The peer list of a loaded configuration has one entry more than
    REBROADCAST_RELAYS has commas, so it is never empty, and a rebroadcast
    to it tries to connect to each entry, blank ones included. *)
Theorem loadConfig_relays_never_empty (ext : Externals) (env : Environ)
    (config : Config) (event : Event) (tr : Trace) :
  loadConfig env = inr config →
  length (RebroadcastRelays config)
  = S (count_char ","%char (getEnv env "REBROADCAST_RELAYS" ""))
  ∧ RebroadcastRelays config ≠ []
  ∧ connects (since tr (snd (rebroadcastEvent ext event
                                (RebroadcastRelays config) tr)))
    = RebroadcastRelays config.
Proof.
  intros (_ & _ & _ & _ & Hrelays)%loadConfig_fields.
  assert (length (RebroadcastRelays config)
          = S (count_char ","%char (getEnv env "REBROADCAST_RELAYS" "")))
    as Hlen by (by rewrite Hrelays, length_fmap, Split_length).
  split; [done|]. split.
  - intros Hnil. by rewrite Hnil in Hlen.
  - unfold rebroadcastEvent.
    destruct (rebroadcastLoop_attempts ext event (RebroadcastRelays config)
                [] tr) as (attempts & Hatt & ->).
    simpl. rewrite since_app. by apply connects_attempts.
Qed.

(** X6. A kind is in the result of [parseAllowedKinds] exactly when a
    comma-separated field, trimmed, parses to it with [strconv.Atoi]; fields
    that do not parse are skipped, and every kind kept is a 64-bit integer. *)
Theorem parseAllowedKinds_entries_int64 (kindsStr : string) (k : Z) :
  (k ∈ parseAllowedKinds kindsStr ↔
   ∃ field, field ∈ GoStrings.Split kindsStr ","%char
            ∧ GoStrconv.Atoi (GoStrings.TrimSpace field) = Some k)
  ∧ (k ∈ parseAllowedKinds kindsStr → int64 k).
Proof.
  split; [apply parseAllowedKinds_entries|].
  intros (field & _ & Hk)%parseAllowedKinds_entries.
  by apply Atoi_range in Hk.
Qed.

(** X7. When ALLOWED_KINDS is set and none of its fields parses (the empty
    string, say), the default is not used: the allowed kinds are empty, the
    admission chain rejects every event, and the protocol path leaves the
    trace as it was. *)
Theorem unparsable_allowed_kinds_reject_all (ext : Externals) (env : Environ)
    (config : Config) (kindsStr : string) (ctx : Context) (event : Event)
    (tr : Trace) :
  loadConfig env = inr config →
  env !! "ALLOWED_KINDS" = Some kindsStr →
  Forall (λ field, GoStrconv.Atoi (GoStrings.TrimSpace field) = None)
    (GoStrings.Split kindsStr ","%char) →
  AllowedKinds config = []
  ∧ fst (admission ext config ctx event) = true
  ∧ ∃ reason, AddEvent ext config ctx event tr = (Rejected reason, tr).
Proof.
  intros (_ & _ & Hkinds & _)%loadConfig_fields Henv Hnone.
  unfold getEnv in Hkinds. rewrite Henv in Hkinds.
  assert (AllowedKinds config = []) as Hnil.
  { rewrite Hkinds, parseAllowedKinds_omap.
    induction Hnone as [|f fs Hf _ IH]; [done|]. simpl. by rewrite Hf. }
  assert (fst (admission ext config ctx event) = true) as Hrej.
  { unfold admission, RejectEvent. rewrite runRejectEvent_cons.
    destruct (fst (createRejectNonWhitelistedPubkeys _ ctx event)); [done|].
    rewrite runRejectEvent_cons, Hnil. reflexivity. }
  split; [done|]. split; [done|].
  unfold AddEvent. destruct (admission ext config ctx event) as [[] reason];
    [by exists reason | done].
Qed.

(** X8. When ALLOWED_KINDS is unset the allowed kinds are 1 and 30023, and the
    kind policy passes exactly the events of these two kinds. *)
Theorem default_allowed_kinds (env : Environ) (config : Config)
    (ctx : Context) (event : Event) :
  loadConfig env = inr config →
  env !! "ALLOWED_KINDS" = None →
  AllowedKinds config = [1; 30023]
  ∧ (fst (createRejectUnsupportedKinds (AllowedKinds config) ctx event) = false
     ↔ Kind event = 1 ∨ Kind event = 30023).
Proof.
  intros (_ & _ & Hkinds & _)%loadConfig_fields Henv.
  unfold getEnv in Hkinds. rewrite Henv in Hkinds.
  assert (AllowedKinds config = [1; 30023]) as -> by (by rewrite Hkinds).
  split; [done|]. unfold createRejectUnsupportedKinds. simpl.
  destruct (Z.eqb_spec (Kind event) 1) as [->|H1]; simpl; [by split; [left|]|].
  destruct (Z.eqb_spec (Kind event) 30023) as [->|H2]; simpl;
    [by split; [right|]|].
  split; [done | by intros [|]].
Qed.

(** ** The two policies and the chain *)

Lemma rev_app_distr (a b : string) :
  String.rev (a +:+ b) = String.rev b +:+ String.rev a.
Proof.
  induction a as [|c a IH].
  - change ("" +:+ b) with b. by rewrite string_app_nil_r.
  - change (String c a +:+ b) with (String c (a +:+ b)).
    by rewrite !rev_cons, IH, string_app_assoc.
Qed.

Lemma string_app_inv_head (p a b : string) : p +:+ a = p +:+ b → a = b.
Proof.
  induction p as [|c p IH]; [done|].
  change (String c (p +:+ a) = String c (p +:+ b) → a = b).
  intros [= H]. by apply IH.
Qed.

Lemma string_app_inv_tail (a b s : string) : a +:+ s = b +:+ s → a = b.
Proof.
  intros H. apply (f_equal String.rev) in H.
  rewrite !rev_app_distr in H. apply string_app_inv_head in H.
  apply (f_equal String.rev) in H. by rewrite !rev_involutive in H.
Qed.

(** X9. Each of the two policies of [main.go] returns an empty reason exactly
    when it passes the event. *)
Theorem domain_policies_reason (whitelist : gmap string bool)
    (allowedKinds : list Z) (ctx : Context) (event : Event) :
  let byPubkey := createRejectNonWhitelistedPubkeys whitelist ctx event in
  let byKind := createRejectUnsupportedKinds allowedKinds ctx event in
  (fst byPubkey = false ↔ snd byPubkey = "")
  ∧ (fst byKind = false ↔ snd byKind = "").
Proof.
  unfold createRejectNonWhitelistedPubkeys, createRejectUnsupportedKinds.
  split.
  - destruct (bool_decide _); [done|].
    by destruct (negb _).
  - by destruct (kind_allowed _ _).
Qed.

(** X10. The reason of the kind policy tells the kind: two events rejected with
    the same outcome have the same kind. *)
Theorem kind_reason_names_the_kind (allowedKinds : list Z) (ctx ctx' : Context)
    (event event' : Event) :
  fst (createRejectUnsupportedKinds allowedKinds ctx event) = true →
  createRejectUnsupportedKinds allowedKinds ctx event
  = createRejectUnsupportedKinds allowedKinds ctx' event' →
  Kind event = Kind event'.
Proof.
  unfold createRejectUnsupportedKinds.
  destruct (kind_allowed allowedKinds (Kind event)); [done|]. intros _.
  destruct (kind_allowed allowedKinds (Kind event')); [done|].
  intros [= H]. apply string_app_inv_head in H.
  apply string_app_inv_tail in H. by apply (inj pretty).
Qed.

Lemma admission_all_pass (ext : Externals) (config : Config)
    (ctx : Context) (event : Event) :
  fst (admission ext config ctx event) = false ↔
  (WhitelistedPubkeys config = ∅
   ∨ WhitelistedPubkeys config !! PubKey event = Some true)
  ∧ Kind event ∈ AllowedKinds config
  ∧ fst (RejectEventsWithBase64Media ext ctx event) = false
  ∧ fst (EventIPRateLimiter ext 5 60000000000 30 ctx event) = false.
Proof.
  unfold admission, RejectEvent. rewrite !runRejectEvent_cons.
  unfold createRejectNonWhitelistedPubkeys at 1.
  unfold createRejectUnsupportedKinds at 1.
  destruct (bool_decide _) eqn:Hsz.
  - apply whitelist_disabled in Hsz. simpl.
    destruct (kind_allowed _ _) eqn:Hk; simpl.
    + apply kind_allowed_spec in Hk.
      destruct (fst (RejectEventsWithBase64Media ext ctx event)); simpl;
        [intuition congruence|].
      destruct (fst (EventIPRateLimiter ext _ _ _ ctx event)); simpl;
        intuition congruence.
    + split; [done|]. intros (_ & Hin%kind_allowed_spec & _). congruence.
  - assert (WhitelistedPubkeys config ≠ ∅) as Hne.
    { intros H%whitelist_disabled. congruence. }
    destruct (WhitelistedPubkeys config !! PubKey event) as [[]|] eqn:Hpk;
      simpl; [|intuition congruence..].
    destruct (kind_allowed _ _) eqn:Hk; simpl.
    + apply kind_allowed_spec in Hk.
      destruct (fst (RejectEventsWithBase64Media ext ctx event)); simpl;
        [intuition congruence|].
      destruct (fst (EventIPRateLimiter ext _ _ _ ctx event)); simpl;
        intuition congruence.
    + split; [done|]. intros (_ & Hin%kind_allowed_spec & _). congruence.
Qed.

(** X11. The admission chain passes an event exactly when the pubkey allowlist
    is empty or maps the event's publicKey to true, the kind is allowed, and
    the two generic policies pass. *)
Theorem admission_passes_iff (ext : Externals) (config : Config)
    (ctx : Context) (event : Event) :
  fst (admission ext config ctx event) = false ↔
  (WhitelistedPubkeys config = ∅
   ∨ WhitelistedPubkeys config !! PubKey event = Some true)
  ∧ Kind event ∈ AllowedKinds config
  ∧ fst (RejectEventsWithBase64Media ext ctx event) = false
  ∧ fst (EventIPRateLimiter ext 5 60000000000 30 ctx event) = false.
Proof. apply admission_all_pass. Qed.

(** ** The pipeline *)

(** X12. On the protocol path a rejected event leaves the trace as it was, with
    the rejecting policy's reason as outcome; and every event handed to the
    store comes from an admitted event, has its kind, and that kind is
    allowed. *)
Theorem AddEvent_stores_only_admitted (ext : Externals) (config : Config)
    (ctx : Context) (event : Event) (tr : Trace) :
  let run := AddEvent ext config ctx event tr in
  (fst (admission ext config ctx event) = true →
   run = (Rejected (snd (admission ext config ctx event)), tr))
  ∧ (∀ m r, (m, r) ∈ saves (since tr (snd run)) →
            fst (admission ext config ctx event) = false
            ∧ Kind m = Kind event
            ∧ Kind m ∈ AllowedKinds config).
Proof.
  intros run. subst run. split.
  - unfold AddEvent. by destruct (admission ext config ctx event) as [[] msg].
  - intros m r Hin.
    destruct (fst (admission ext config ctx event)) eqn:Hadm.
    + unfold AddEvent in Hin.
      destruct (admission ext config ctx event) as [[] msg]; [|done].
      simpl in Hin. rewrite since_refl in Hin. by apply elem_of_nil in Hin.
    + rewrite (AddEvent_admitted _ _ _ _ _ Hadm) in Hin.
      assert (m ∈ events_out (since tr (snd (mixAndStoreEvent ext event
                 (RelayPrivateKey config) (RebroadcastRelays config) tr))))
        as Hout.
      { destruct (mixAndStoreEvent_run ext event (RelayPrivateKey config)
                    (RebroadcastRelays config) tr)
          as [(e & Hs & Hr)|[(m' & e & Hs & Hd & Hr)|(m' & Hs & Hd & Hr)]];
          rewrite Hr in Hin |- *; simpl in *; rewrite since_app in *;
          simpl in *; elem_of_cases; apply list_elem_of_here. }
      apply mixAndStoreEvent_events_out, Sign_fields in Hout
        as (_ & Hk & _).
      simpl in Hk. split; [done|]. split; [done|].
      rewrite Hk. by apply admission_all_pass in Hadm as (_ & ? & _).
Qed.

(** X13. When the relay's private key does not decode, [mixAndStoreEvent]
    returns an error that wraps the decoding error under "failed to sign
    mixed event: ", and all it did was read the clock: nothing saved,
    nothing fanned out. *)
Theorem malformed_private_key_stores_nothing (ext : Externals)
    (event : Event) (privateKey : string) (relays : list string) (tr : Trace)
    (err : error) :
  derive_PubKey ext privateKey = inl err →
  let run := mixAndStoreEvent ext event privateKey relays tr in
  (∃ e, fst run = Some e ∧ Unwrap e = Some err
        ∧ Error e = "failed to sign mixed event: " +:+ Error err)
  ∧ since tr (snd run) = [ATimeNow (time_Now ext tr)].
Proof.
  intros Hkey run. subst run. unfold mixAndStoreEvent, Sign. rewrite Hkey.
  simpl. rewrite since_app. split; [by eexists | done].
Qed.

(** X14. [mixAndStoreEvent] returns no error exactly when its run is: read the
    clock, save the mixed event successfully, broadcast it, start the
    rebroadcast goroutine for it, in this order. A failed run fans nothing
    out; every run reads the clock once and connects to no peer itself. *)
Theorem mixAndStoreEvent_success_order (ext : Externals) (event : Event)
    (privateKey : string) (relays : list string) (tr : Trace) :
  let run := mixAndStoreEvent ext event privateKey relays tr in
  let acts := since tr (snd run) in
  (fst run = None ↔
   ∃ m, acts = [ATimeNow (time_Now ext tr); ASaveEvent m None;
                ABroadcastEvent m; AGoRebroadcast m relays])
  ∧ (fst run ≠ None → fanout acts = [])
  ∧ clock_reads acts = [time_Now ext tr]
  ∧ connects acts = [].
Proof.
  intros run acts. subst run acts.
  destruct (mixAndStoreEvent_run ext event privateKey relays tr)
    as [(e & Hs & ->)|[(m & e & Hs & Hd & ->)|(m & Hs & Hd & ->)]];
    simpl; rewrite since_app; simpl.
  - repeat split; try done. by intros [m Hm].
  - repeat split; try done. by intros [m' Hm].
  - repeat split; try done. by exists m.
Qed.

(** ** The rebroadcast *)

Lemma rebroadcastLoop_acc ext event relays :
  ∀ errors tr,
    rebroadcastLoop ext event relays errors tr
    = (errors ++ fst (rebroadcastLoop ext event relays [] tr),
       snd (rebroadcastLoop ext event relays [] tr)).
Proof.
  induction relays as [|url rest IH]; intros errors tr; simpl.
  - by rewrite app_nil_r.
  - destruct (rebroadcastOne ext event url tr) as [[e|] tr1].
    + rewrite (IH (errors ++ [Error e])), (IH ([] ++ [Error e])). simpl.
      by rewrite <-app_assoc.
    + apply IH.
Qed.

Lemma rebroadcastLoop_app ext event l1 l2 :
  ∀ errors tr,
    rebroadcastLoop ext event (l1 ++ l2) errors tr
    = rebroadcastLoop ext event l2
        (fst (rebroadcastLoop ext event l1 errors tr))
        (snd (rebroadcastLoop ext event l1 errors tr)).
Proof.
  induction l1 as [|url rest IH]; intros errors tr; simpl; [done|].
  destruct (rebroadcastOne ext event url tr) as [res tr1]. apply IH.
Qed.

(** X15. A rebroadcast to the peers [l1 ++ l2] is a rebroadcast to [l1] followed
    by one to [l2]: the failure lists are concatenated and the second
    starts from the trace the first left. *)
Theorem rebroadcastEvent_app (ext : Externals) (event : Event)
    (l1 l2 : list string) (tr : Trace) :
  let first := rebroadcastEvent ext event l1 tr in
  let second := rebroadcastEvent ext event l2 (snd first) in
  rebroadcastEvent ext event (l1 ++ l2) tr
  = (fst first ++ fst second, snd second).
Proof.
  intros first second. subst first second. unfold rebroadcastEvent.
  by rewrite rebroadcastLoop_app, rebroadcastLoop_acc.
Qed.

Lemma attempts_connection_hygiene event relays :
  ∀ attempts,
    let acts := concat (zip_with (attempt_actions event) relays attempts) in
    published_to acts = connected acts ∧ closed acts = connected acts
    ∧ Forall (λ a, is_peer_action a = true) acts.
Proof.
  induction relays as [|url rest IH]; intros [|a attempts]; simpl;
    try done.
  destruct (IH attempts) as (Hp & Hc & Hf).
  unfold published_to, closed, connected in *.
  rewrite !omap_app, Hp, Hc, Forall_app.
  destruct a; simpl; repeat split; try done; repeat constructor.
Qed.

Lemma attempts_error_or_log event relays :
  ∀ attempts, length attempts = length relays →
    (length (omap (λ p : string * Attempt, attempt_error p.1 p.2)
               (zip relays attempts))
     + length (logged (concat (zip_with (attempt_actions event) relays
                                 attempts))))%nat
    = length relays.
Proof.
  induction relays as [|url rest IH]; intros [|a attempts]; simpl;
    try done.
  intros [= Hlen]. specialize (IH _ Hlen).
  unfold logged in *. rewrite omap_app, length_app.
  destruct a; csimpl; lia.
Qed.

(** X16. In a rebroadcast, the peers published to and the connections closed are
    exactly the connections that succeeded, in order: a peer that could not
    be connected to is neither published to nor closed. Every peer ends
    either in the failure list or in a log line. *)
Theorem rebroadcast_closes_what_it_opens (ext : Externals) (event : Event)
    (relays : list string) (tr : Trace) :
  let acts := since tr (snd (rebroadcastEvent ext event relays tr)) in
  published_to acts = connected acts
  ∧ closed acts = connected acts
  ∧ (length (fst (rebroadcastEvent ext event relays tr))
     + length (logged acts))%nat = length relays.
Proof.
  intros acts. subst acts. unfold rebroadcastEvent.
  destruct (rebroadcastLoop_attempts ext event relays [] tr)
    as (attempts & Hlen & ->).
  simpl. rewrite since_app.
  destruct (attempts_connection_hygiene event relays attempts)
    as (Hp & Hc & _).
  split; [done|]. split; [done|]. by apply attempts_error_or_log.
Qed.

(** X17. A rebroadcast only connects, publishes, closes and logs: it saves
    nothing, does not read the clock, and every event it publishes is the
    event it was given. *)
Theorem rebroadcast_only_talks_to_peers (ext : Externals) (event : Event)
    (relays : list string) (tr : Trace) :
  let acts := since tr (snd (rebroadcastEvent ext event relays tr)) in
  Forall (λ a, is_peer_action a = true) acts
  ∧ saves acts = []
  ∧ clock_reads acts = []
  ∧ ∀ e, e ∈ published acts → e = event.
Proof.
  intros acts. subst acts. unfold rebroadcastEvent.
  destruct (rebroadcastLoop_attempts ext event relays [] tr)
    as (attempts & Hlen & ->).
  simpl. rewrite since_app.
  destruct (attempts_connection_hygiene event relays attempts)
    as (_ & _ & Hpeer).
  split; [done|]. split; [apply saves_attempts|]. split.
  - simpl in Hpeer. clear Hlen.
    induction Hpeer as [|a acts Ha _ IH]; [done|].
    destruct a; simpl in *; done.
  - intros e. apply published_attempts.
Qed.

(** ** The submission handler *)

Lemma createSubmitNoteHandler_refused ext config r tr :
  Method r ≠ "POST" ∨ WhitelistedPubkeys config ≠ ∅
  ∨ FormValue_content r = "" →
  snd (createSubmitNoteHandler ext config r tr) = tr.
Proof.
  unfold createSubmitNoteHandler.
  destruct (String.eqb_spec (Method r) "POST") as [Hm|Hm]; simpl; [|done].
  destruct (bool_decide _) eqn:Hsz; simpl; [|done].
  apply whitelist_disabled in Hsz.
  destruct (String.eqb_spec (FormValue_content r) "") as [Hc|Hc]; [done|].
  intros [?|[?|?]]; done.
Qed.

Lemma createSubmitNoteHandler_open ext config r tr :
  Method r = "POST" → WhitelistedPubkeys config = ∅ →
  FormValue_content r ≠ "" →
  let t := time_Now ext tr in
  createSubmitNoteHandler ext config r tr
  = match Sign ext (synthesizedEvent (FormValue_content r) t)
            (RelayPrivateKey config) with
    | inl _ =>
        (write (p_class "error" "Failed to sign event"), tr ++ [ATimeNow t])
    | inr event =>
        match mixAndStoreEvent ext event (RelayPrivateKey config)
                (RebroadcastRelays config) (tr ++ [ATimeNow t]) with
        | (Some _, tr2) =>
            (write (p_class "error" "Failed to store event"), tr2)
        | (None, tr2) =>
            ({| StatusCode := 200; ContentType := Some "text/html";
                Body := renderResponse
                          (fst (rebroadcastEvent ext event
                                  (RebroadcastRelays config) tr2)) |},
             snd (rebroadcastEvent ext event (RebroadcastRelays config) tr2))
        end
    end.
Proof.
  intros Hm Hwl Hc t. unfold createSubmitNoteHandler.
  rewrite Hm, Hwl. simpl.
  destruct (String.eqb_spec (FormValue_content r) "") as [|_]; [done|].
  fold t. destruct (Sign ext _ _) as [e|event]; [done|].
  destruct (mixAndStoreEvent ext event _ _ _) as [[e|] tr2]; [done|].
  by destruct (rebroadcastEvent ext event _ tr2).
Qed.

(** X18. The submission handler answers 405 to anything but POST, 403 to a POST
    when the pubkey allowlist is non-empty, and 200 otherwise, the pages
    reporting empty content, a signing failure or a storage failure
    included. When the status is not 200, or the content is empty, the
    trace is left as it was. *)
Theorem submit_note_status (ext : Externals) (config : Config) (r : Request)
    (tr : Trace) :
  let run := createSubmitNoteHandler ext config r tr in
  StatusCode (fst run)
  = (if decide (Method r ≠ "POST") then 405
     else if decide (WhitelistedPubkeys config ≠ ∅) then 403 else 200)
  ∧ (StatusCode (fst run) ≠ 200 ∨ FormValue_content r = "" → snd run = tr).
Proof.
  intros run. subst run.
  destruct (decide (Method r ≠ "POST")) as [Hm|Hm].
  { split; [|intros _; apply createSubmitNoteHandler_refused; by left].
    unfold createSubmitNoteHandler.
    by destruct (String.eqb_spec (Method r) "POST"). }
  apply dec_stable in Hm.
  destruct (decide (WhitelistedPubkeys config ≠ ∅)) as [Hwl|Hwl].
  { split; [|intros _; apply createSubmitNoteHandler_refused; by right; left].
    unfold createSubmitNoteHandler. rewrite Hm. simpl.
    destruct (bool_decide _) eqn:Hsz; [|done].
    by apply whitelist_disabled in Hsz. }
  apply dec_stable in Hwl.
  destruct (decide (FormValue_content r = "")) as [Hc|Hc].
  { split; [|intros _; apply createSubmitNoteHandler_refused; by right; right].
    unfold createSubmitNoteHandler. rewrite Hm, Hwl, Hc. done. }
  assert (StatusCode (fst (createSubmitNoteHandler ext config r tr)) = 200)
    as Hok.
  { rewrite createSubmitNoteHandler_open by done.
    destruct (Sign ext _ _) as [e|event]; [done|].
    by destruct (mixAndStoreEvent ext event _ _ _) as [[e|] tr2]. }
  split; [done|]. intros [?|?]; done.
Qed.

Lemma createSubmitNoteHandler_refused_page ext config r tr :
  ¬ (Method r = "POST" ∧ WhitelistedPubkeys config = ∅
     ∧ FormValue_content r ≠ "") →
  snd (createSubmitNoteHandler ext config r tr) = tr
  ∧ ContentType (fst (createSubmitNoteHandler ext config r tr))
    ≠ Some "text/html".
Proof.
  intros Hno. unfold createSubmitNoteHandler.
  destruct (String.eqb_spec (Method r) "POST") as [Hm|Hm]; simpl; [|done].
  destruct (bool_decide _) eqn:Hsz; simpl; [|done].
  apply whitelist_disabled in Hsz.
  destruct (String.eqb_spec (FormValue_content r) "") as [Hc|Hc]; [done|].
  by destruct Hno.
Qed.

Lemma clock_reads_app (a b : Trace) :
  clock_reads (a ++ b) = clock_reads a ++ clock_reads b.
Proof. apply omap_app. Qed.

Lemma clock_reads_attempts event relays :
  ∀ attempts,
  clock_reads (concat (zip_with (attempt_actions event) relays attempts)) = [].
Proof.
  induction relays as [|url rest IH]; intros [|a attempts]; simpl; try done.
  rewrite clock_reads_app, IH. by destruct a.
Qed.

(** X19. The submission handler serves the success page (content type
    text/html) exactly when one mixed event was saved without error;
    rebroadcast failures do not change that. A run calls the store at most
    once and reads the clock at most twice. *)
Theorem submit_note_success_iff_saved (ext : Externals) (config : Config)
    (r : Request) (tr : Trace) :
  let run := createSubmitNoteHandler ext config r tr in
  let acts := since tr (snd run) in
  (ContentType (fst run) = Some "text/html" ↔ ∃ m, saves acts = [(m, None)])
  ∧ (length (saves acts) ≤ 1)%nat
  ∧ (length (clock_reads acts) ≤ 2)%nat.
Proof.
  intros run acts. subst run acts.
  destruct (decide (Method r = "POST" ∧ WhitelistedPubkeys config = ∅
                    ∧ FormValue_content r ≠ "")) as [(Hm & Hwl & Hc)|Hno].
  2: { destruct (createSubmitNoteHandler_refused_page ext config r tr Hno)
         as [-> Hpage].
       rewrite since_refl. simpl. split; [|lia].
       split; [done | by intros [m Hm]]. }
  rewrite createSubmitNoteHandler_open by done.
  destruct (Sign ext _ _) as [e|event].
  { simpl. rewrite since_app. simpl. split; [|lia].
    split; [done | by intros [m Hm']]. }
  set (tr1 := tr ++ [ATimeNow (time_Now ext tr)]).
  destruct (mixAndStoreEvent_run ext event (RelayPrivateKey config)
              (RebroadcastRelays config) tr1)
    as [(e & _ & ->)|[(m & e & _ & _ & ->)|(m & _ & _ & ->)]]; simpl.
  - subst tr1. rewrite since_app_assoc. simpl. split; [|lia].
    split; [done | by intros [m Hm']].
  - subst tr1. rewrite since_app_assoc. simpl. split; [|lia].
    split; [done | by intros [m' Hm']].
  - unfold rebroadcastEvent.
    destruct (rebroadcastLoop_attempts ext event (RebroadcastRelays config) []
                (tr1 ++ [ATimeNow (time_Now ext tr1); ASaveEvent m None;
                         ABroadcastEvent m;
                         AGoRebroadcast m (RebroadcastRelays config)]))
      as (attempts & _ & ->).
    simpl. subst tr1. rewrite <-!app_assoc, since_app.
    rewrite !saves_app, saves_attempts, !clock_reads_app,
      clock_reads_attempts. simpl.
    split; [|lia]. split; [by exists m | done].
Qed.

(** X20. Whatever the submission handler hands to the store comes from a POST to
    a relay with an empty pubkey allowlist, has the submitted, non-empty
    content, kind 1, no tags, the public key derived from the relay's
    private key, and the second clock reading of the run as createdAt. *)
Theorem submit_note_stored_event (ext : Externals) (config : Config)
    (r : Request) (tr : Trace) (m : Event) (res : option error) :
  (m, res) ∈ saves (since tr (snd (createSubmitNoteHandler ext config r tr)))
  →
  Method r = "POST" ∧ WhitelistedPubkeys config = ∅
  ∧ Content m = FormValue_content r ∧ Content m ≠ ""
  ∧ Kind m = 1 ∧ Tags m = []
  ∧ derive_PubKey ext (RelayPrivateKey config) = inr (PubKey m)
  ∧ CreatedAt m = time_Now ext (tr ++ [ATimeNow (time_Now ext tr)]).
Proof.
  destruct (decide (Method r = "POST" ∧ WhitelistedPubkeys config = ∅
                    ∧ FormValue_content r ≠ "")) as [(Hm & Hwl & Hc)|Hno].
  2: { destruct (createSubmitNoteHandler_refused_page ext config r tr Hno)
         as [-> _].
       rewrite since_refl. intros H. by apply elem_of_nil in H. }
  rewrite createSubmitNoteHandler_open by done.
  destruct (Sign ext _ _) as [e|event] eqn:Hsign.
  { simpl. rewrite since_app. simpl. intros H. by apply elem_of_nil in H. }
  apply Sign_fields in Hsign as (Hcontent & Hkind & Htags & _).
  simpl in Hcontent, Hkind, Htags.
  set (tr1 := tr ++ [ATimeNow (time_Now ext tr)]).
  assert (Sign ext (mixedEvent event (time_Now ext tr1))
            (RelayPrivateKey config) = inr m →
          Method r = "POST" ∧ WhitelistedPubkeys config = ∅
          ∧ Content m = FormValue_content r ∧ Content m ≠ ""
          ∧ Kind m = 1 ∧ Tags m = []
          ∧ derive_PubKey ext (RelayPrivateKey config) = inr (PubKey m)
          ∧ CreatedAt m = time_Now ext tr1) as Hshape.
  { intros (Hc' & Hk' & Ht' & Hcr' & Hpk')%Sign_fields. simpl in *.
    repeat split; congruence. }
  destruct (mixAndStoreEvent_run ext event (RelayPrivateKey config)
              (RebroadcastRelays config) tr1)
    as [(e & _ & ->)|[(m' & e & Hs & _ & ->)|(m' & Hs & _ & ->)]]; simpl.
  - subst tr1. rewrite since_app_assoc. simpl.
    intros H. by apply elem_of_nil in H.
  - subst tr1. rewrite since_app_assoc. simpl.
    intros H; elem_of_cases. by apply Hshape.
  - unfold rebroadcastEvent.
    destruct (rebroadcastLoop_attempts ext event (RebroadcastRelays config) []
                (tr1 ++ [ATimeNow (time_Now ext tr1); ASaveEvent m' None;
                         ABroadcastEvent m';
                         AGoRebroadcast m' (RebroadcastRelays config)]))
      as (attempts & _ & ->).
    simpl. subst tr1. rewrite <-!app_assoc, since_app.
    rewrite !saves_app, saves_attempts. simpl.
    intros H; elem_of_cases. by apply Hshape.
Qed.

(** ** Startup and the home page *)

(** X21. [main] reaches [http.ListenAndServe] only with a configuration loaded,
    the template parsed and the database at DB_PATH initialised, on the
    address ":" followed by PORT. Otherwise it ends in [log.Fatalf]: for a
    missing private key, for the template, or for the database, in which
    case the message repeats the prefix "failed to initialize database". *)
Theorem main_outcome (env : Environ) (templates_Parse : option error)
    (db_Init : string → option error) :
  match main env templates_Parse db_Init with
  | ListenAndServe addr config info db =>
      loadConfig env = inr config
      ∧ templates_Parse = None
      ∧ db = getEnv env "DB_PATH" "./khatru-sqlite.db"
      ∧ db_Init db = None
      ∧ addr = ":" +:+ getEnv env "PORT" "3334"
      ∧ info = InitializeRelay config
      ∧ Info_PubKey info = getEnv env "RELAY_PUBKEY" ""
  | Fatal msg =>
      (Getenv env "RELAY_PRIVATE_KEY" = ""
       ∧ msg = "Failed to load configuration: "
               +:+ "RELAY_PRIVATE_KEY not set in environment")
      ∨ (Getenv env "RELAY_PRIVATE_KEY" ≠ ""
         ∧ ∃ err, templates_Parse = Some err
                  ∧ msg = "Failed to parse template: " +:+ Error err)
      ∨ (Getenv env "RELAY_PRIVATE_KEY" ≠ "" ∧ templates_Parse = None
         ∧ ∃ err, db_Init (getEnv env "DB_PATH" "./khatru-sqlite.db")
                  = Some err
                  ∧ msg = "Failed to initialize database: "
                          +:+ "failed to initialize database: "
                          +:+ Error err)
  end.
Proof.
  unfold main, loadConfig.
  destruct (String.eqb_spec (Getenv env "RELAY_PRIVATE_KEY") "") as [Hk|Hk].
  { left. by split. }
  destruct templates_Parse as [err|].
  { right; left. split; [done|]. by exists err. }
  unfold initializeDatabase. simpl.
  destruct (db_Init _) as [err|] eqn:Hdb.
  - right; right. split; [done|]. split; [done|]. by exists err.
  - done.
Qed.

(** X22. The home page says that the relay uses a whitelist exactly when the
    submission handler answers a POST with 403. *)
Theorem home_flag_matches_submit_gate (ext : Externals) (config : Config)
    (host : string) (r : Request) (tr : Trace) :
  Method r = "POST" →
  Home_WhitelistEnabled (createHomeHandler config host) = true
  ↔ StatusCode (fst (createSubmitNoteHandler ext config r tr)) = 403.
Proof.
  intros Hm. simpl. rewrite bool_decide_eq_true.
  unfold createSubmitNoteHandler. rewrite Hm. simpl.
  destruct (bool_decide (size (WhitelistedPubkeys config) = 0%nat)) eqn:Hsz;
    simpl.
  - apply bool_decide_eq_true in Hsz. rewrite Hsz. split; [lia|].
    destruct (String.eqb _ ""); [done|].
    destruct (Sign ext _ _) as [e|event]; [done|].
    destruct (mixAndStoreEvent ext event _ _ _) as [[e|] tr2]; [done|].
    by destruct (rebroadcastEvent ext event _ tr2).
  - apply bool_decide_eq_false in Hsz. split; [done | lia].
Qed.

(** ** Worked instances of the further properties *)

Lemma parseAllowedKinds_reads_back_witness :
  parseAllowedKinds (String.concat "," (pretty <$> [1; 30023; -5]))
  = [1; 30023; -5].
Proof.
  apply (parseAllowedKinds_reads_back [1; 30023; -5]).
  repeat constructor; unfold int64; lia.
Defined.

Lemma loadConfig_whitelist_entries_witness :
  ∃ config, loadConfig sample_env = inr config
            ∧ WhitelistedPubkeys config !! "abc" = Some true.
Proof.
  destruct (loadConfig sample_env) as [e|config] eqn:Hload;
    [vm_compute in Hload; discriminate|].
  exists config. split; [reflexivity|].
  apply (loadConfig_whitelist_entries sample_env config "abc" true Hload).
  split; [reflexivity|]. split; [discriminate|].
  vm_compute. apply list_elem_of_here.
Defined.

Lemma loaded_pubkey_policy_witness :
  ∃ config, loadConfig sample_env = inr config
            ∧ fst (createRejectNonWhitelistedPubkeys
                     (WhitelistedPubkeys config) sample_ctx
                     (sample_event "xyz" 50 1 "hello")) = false.
Proof.
  destruct (loadConfig sample_env) as [e|config] eqn:Hload;
    [vm_compute in Hload; discriminate|].
  exists config. split; [reflexivity|].
  apply (loaded_pubkey_policy sample_env config sample_ctx
           (sample_event "xyz" 50 1 "hello") Hload).
  right. split; [discriminate|].
  vm_compute. do 2 apply list_elem_of_further. apply list_elem_of_here.
Defined.

Lemma loadConfig_relays_never_empty_witness :
  ∃ config, loadConfig sample_env = inr config
            ∧ length (RebroadcastRelays config) = 3%nat.
Proof.
  destruct (loadConfig sample_env) as [e|config] eqn:Hload;
    [vm_compute in Hload; discriminate|].
  exists config. split; [reflexivity|].
  apply (loadConfig_relays_never_empty (sample_ext true) sample_env config
           (sample_event "relay" 100 1 "hello") [] Hload).
Defined.

Lemma unparsable_allowed_kinds_reject_all_witness :
  ∃ config, loadConfig sample_env = inr config
            ∧ fst (admission (sample_ext true) config sample_ctx
                     (sample_event "abc" 50 1 "hello")) = true.
Proof.
  destruct (loadConfig sample_env) as [e|config] eqn:Hload;
    [vm_compute in Hload; discriminate|].
  exists config. split; [reflexivity|].
  apply (unparsable_allowed_kinds_reject_all (sample_ext true) sample_env
           config "" sample_ctx (sample_event "abc" 50 1 "hello") [] Hload).
  - vm_compute. reflexivity.
  - repeat constructor.
Defined.

Lemma default_allowed_kinds_witness :
  ∃ config, loadConfig {["RELAY_PRIVATE_KEY" := "sk"]} = inr config
            ∧ AllowedKinds config = [1; 30023].
Proof.
  destruct (loadConfig {["RELAY_PRIVATE_KEY" := "sk"]}) as [e|config]
    eqn:Hload; [vm_compute in Hload; discriminate|].
  exists config. split; [reflexivity|].
  apply (default_allowed_kinds {["RELAY_PRIVATE_KEY" := "sk"]} config
           sample_ctx (sample_event "abc" 50 1 "hello") Hload).
  vm_compute. reflexivity.
Defined.

Lemma kind_reason_names_the_kind_witness :
  Kind (sample_event "abc" 50 9999 "hello")
  = Kind (sample_event "xyz" 60 9999 "bye").
Proof.
  apply (kind_reason_names_the_kind [1; 30023] sample_ctx sample_ctx
           (sample_event "abc" 50 9999 "hello")
           (sample_event "xyz" 60 9999 "bye")).
  - vm_compute. reflexivity.
  - vm_compute. reflexivity.
Defined.

Lemma malformed_private_key_stores_nothing_witness :
  since [] (snd (mixAndStoreEvent (sample_ext true)
                   (sample_event "abc" 50 1 "hello") "" ["wss://peer"] []))
  = [ATimeNow 100].
Proof.
  apply (malformed_private_key_stores_nothing (sample_ext true)
           (sample_event "abc" 50 1 "hello") "" ["wss://peer"] []
           (ErrorString "invalid secret key")).
  reflexivity.
Defined.

Lemma submit_note_stored_event_witness :
  let run := createSubmitNoteHandler (sample_ext true)
               (sample_config [30023] ∅ []) (sample_post "hello") [] in
  length (saves (since [] (snd run))) = 1%nat
  ∧ Forall (λ s, Kind s.1 = 1 ∧ Content s.1 = "hello" ∧ CreatedAt s.1 = 101)
      (saves (since [] (snd run))).
Proof.
  intros run. split; [vm_compute; reflexivity|].
  apply Forall_forall. intros [m res] Hin.
  destruct (submit_note_stored_event (sample_ext true)
              (sample_config [30023] ∅ []) (sample_post "hello") [] m res Hin)
    as (_ & _ & Hcontent & _ & Hkind & _ & _ & Hcreated).
  vm_compute in Hcreated. done.
Defined.

Lemma home_flag_matches_submit_gate_witness :
  Home_WhitelistEnabled
    (createHomeHandler (sample_config [1] {["abc" := true]} []) "relay.test")
  = true.
Proof.
  apply (home_flag_matches_submit_gate (sample_ext true)
           (sample_config [1] {["abc" := true]} []) "relay.test"
           (sample_post "hello") []).
  - reflexivity.
  - vm_compute. reflexivity.
Defined.

(** ** Reading back the lists of the configuration *)

Lemma TrimSpace_after_space (s : string) :
  trimmed s = true → GoStrings.TrimSpace (String " "%char s) = s.
Proof.
  intros Hs. unfold GoStrings.TrimSpace.
  assert (GoStrings.TrimLeftSpace (String " "%char s) = s) as ->.
  { unfold GoStrings.TrimLeftSpace. simpl String.length.
    change (GoStrings.trim_left GoStrings.spaces (S (String.length s))
              (String " "%char s))
      with (GoStrings.trim_left GoStrings.spaces (String.length s) s).
    unfold trimmed in Hs. destruct s as [|c rest]; [done|].
    destruct (String.rev (String c rest)); [done|].
    apply andb_prop in Hs as [Hc _].
    by apply trim_left_stuck, strip_any_spaces_visible. }
  pose proof (TrimSpace_trimmed s Hs) as Htrim.
  unfold GoStrings.TrimSpace in Htrim.
  assert (GoStrings.TrimLeftSpace s = s) as Hleft.
  { unfold trimmed in Hs. destruct s as [|c rest]; [done|].
    destruct (String.rev (String c rest)); [done|].
    apply andb_prop in Hs as [Hc _]. by apply TrimLeftSpace_visible. }
  by rewrite Hleft in Htrim.
Qed.

Lemma Split_cons_other (c : ascii) (s : string) (sep : ascii) :
  Ascii.eqb c sep = false →
  GoStrings.Split (String c s) sep
  = match GoStrings.Split s sep with
    | field :: fields => String c field :: fields
    | [] => [String c ""]
    end.
Proof. intros H. simpl. by rewrite H. Qed.

Lemma Split_comma_space_fields (l : list string) (x : string) :
  Forall entry (x :: l) →
  GoStrings.Split (String.concat ", " (x :: l)) ","%char
  = x :: (String " "%char <$> l).
Proof.
  revert x. induction l as [|y l IH]; intros x Hall.
  - apply Forall_cons in Hall as [[_ Hcomma] _]. by apply Split_no_sep.
  - apply Forall_cons in Hall as [[_ Hcomma] Hl].
    change (String.concat ", " (x :: y :: l))
      with (x +:+ String ","%char
              (String " "%char (String.concat ", " (y :: l)))).
    rewrite Split_app_sep by done. f_equal.
    rewrite Split_cons_other by done. by rewrite (IH y Hl).
Qed.

Lemma TrimSpace_comma_space_fields (l : list string) :
  l ≠ [] → Forall entry l →
  GoStrings.TrimSpace <$> GoStrings.Split (String.concat ", " l) ","%char = l.
Proof.
  destruct l as [|x l]; [done|]. intros _ Hall.
  rewrite Split_comma_space_fields by done.
  apply Forall_cons in Hall as [[Hx _] Hl].
  rewrite fmap_cons, TrimSpace_trimmed by done. f_equal.
  induction Hl as [|y l [Hy _] _ IH]; [done|].
  rewrite !fmap_cons, TrimSpace_after_space by done. by rewrite IH.
Qed.

(** X23. When WHITELISTED_PUBKEYS lists keys separated by a comma and a
    space, each key starting and ending with a visible character and
    holding no comma, the loaded allowlist holds exactly these keys. *)
Theorem whitelist_reads_back (env : Environ) (config : Config)
    (keys : list string) (k : string) :
  loadConfig env = inr config →
  env !! "WHITELISTED_PUBKEYS" = Some (String.concat ", " keys) →
  Forall entry keys →
  WhitelistedPubkeys config !! k = Some true ↔ k ∈ keys.
Proof.
  intros (_ & _ & _ & -> & _)%loadConfig_fields Henv Hkeys.
  unfold getEnv. rewrite Henv, parseWhitelist_lookup.
  destruct keys as [|x keys].
  { simpl. destruct (decide _) as [[Hk Hin]|_].
    - apply list_elem_of_singleton in Hin. done.
    - split; [done | intros H; by apply elem_of_nil in H]. }
  rewrite TrimSpace_comma_space_fields by done.
  destruct (decide _) as [[Hk Hin]|Hnot]; [done|].
  split; [done|]. intros Hin. destruct Hnot. split; [|done].
  intros ->. rewrite Forall_forall in Hkeys.
  by destruct (Hkeys "" Hin) as [? _].
Qed.

(** X24. When REBROADCAST_RELAYS lists at least one address, the addresses
    separated by a comma and a space, each starting and ending with a
    visible character and holding no comma, the loaded peer list is that
    list, in order. *)
Theorem relays_read_back (env : Environ) (config : Config)
    (urls : list string) :
  loadConfig env = inr config →
  env !! "REBROADCAST_RELAYS" = Some (String.concat ", " urls) →
  urls ≠ [] → Forall entry urls →
  RebroadcastRelays config = urls.
Proof.
  intros (_ & _ & _ & _ & ->)%loadConfig_fields Henv Hne Hurls.
  unfold getEnv. rewrite Henv. by apply TrimSpace_comma_space_fields.
Qed.

Lemma entry_visible_no_comma (s : string) :
  s ≠ "" → all_chars (λ c, visible c && negb (Ascii.eqb c ","%char)) s = true
  → entry s.
Proof.
  intros Hne Hall. split.
  - apply all_chars_visible_trimmed; [done|].
    eapply all_chars_impl; [|done]. by intros c [? _]%andb_prop.
  - apply (all_chars_count_char
             (λ c, visible c && negb (Ascii.eqb c ","%char))); done.
Qed.

Lemma whitelist_reads_back_witness :
  ∃ config,
    loadConfig {[ "RELAY_PRIVATE_KEY" := "sk";
                  "WHITELISTED_PUBKEYS" := "abc, xyz" ]} = inr config
    ∧ WhitelistedPubkeys config !! "xyz" = Some true.
Proof.
  destruct (loadConfig _) as [e|config] eqn:Hload;
    [vm_compute in Hload; discriminate|].
  exists config. split; [reflexivity|].
  apply (whitelist_reads_back _ config ["abc"; "xyz"] "xyz" Hload).
  - vm_compute. reflexivity.
  - repeat constructor; by apply entry_visible_no_comma.
  - apply list_elem_of_further, list_elem_of_here.
Defined.

Lemma relays_read_back_witness :
  ∃ config,
    loadConfig {[ "RELAY_PRIVATE_KEY" := "sk";
                  "REBROADCAST_RELAYS" := "wss://a.example, wss://b.example" ]}
    = inr config
    ∧ RebroadcastRelays config = ["wss://a.example"; "wss://b.example"].
Proof.
  destruct (loadConfig _) as [e|config] eqn:Hload;
    [vm_compute in Hload; discriminate|].
  exists config. split; [reflexivity|].
  apply (relays_read_back _ config ["wss://a.example"; "wss://b.example"]
           Hload).
  - vm_compute. reflexivity.
  - discriminate.
  - repeat constructor; by apply entry_visible_no_comma.
Defined.

(** ** Configuration: no peer configured, on both paths *)

(** C10. When REBROADCAST_RELAYS is unset or empty, the loaded peer list is
    the one-element list holding the empty string. Then, the empty address
    being one that cannot be connected to: every admitted event whose mix is
    signed and saved is stored on the protocol path with a rebroadcast started
    for that one-element list; every submission whose mix is signed and saved
    has the same rebroadcast started and the handler's own rebroadcast makes
    one connection attempt, to the empty address, whose failure is on the
    page; and every rebroadcast to the loaded list makes exactly that one
    attempt and returns one failure description. *)
Theorem unset_rebroadcast_relays_one_empty_peer (ext : Externals)
    (env : Environ) (config : Config) :
  env !! "REBROADCAST_RELAYS" = None
  ∨ env !! "REBROADCAST_RELAYS" = Some "" →
  loadConfig env = inr config →
  (∀ tr, net_RelayConnect ext tr "" ≠ None) →
  RebroadcastRelays config = [""]
  ∧ (∀ ctx event tr m,
       fst (admission ext config ctx event) = false →
       let t := time_Now ext tr in
       Sign ext (mixedEvent event t) (RelayPrivateKey config) = inr m →
       db_SaveEvent ext (tr ++ [ATimeNow t]) m = None →
       AddEvent ext config ctx event tr
       = (Stored,
          tr ++ [ATimeNow t; ASaveEvent m None; ABroadcastEvent m;
                 AGoRebroadcast m [""]]))
  ∧ (∀ r tr event m,
       Method r = "POST" → WhitelistedPubkeys config = ∅ →
       FormValue_content r ≠ "" →
       let t := time_Now ext tr in
       let tr1 := tr ++ [ATimeNow t] in
       let t' := time_Now ext tr1 in
       Sign ext (synthesizedEvent (FormValue_content r) t)
         (RelayPrivateKey config) = inr event →
       Sign ext (mixedEvent event t') (RelayPrivateKey config) = inr m →
       db_SaveEvent ext (tr1 ++ [ATimeNow t']) m = None →
       let run := createSubmitNoteHandler ext config r tr in
       let tr2 := tr1 ++ [ATimeNow t'; ASaveEvent m None; ABroadcastEvent m;
                          AGoRebroadcast m [""]] in
       ∃ err, net_RelayConnect ext tr2 "" = Some err
              ∧ snd run = tr2 ++ [ARelayConnect "" (Some err)]
              ∧ Body (fst run)
                = renderResponse
                    ["failed to connect to relay : " +:+ Error err])
  ∧ (∀ event tr,
       let run := rebroadcastEvent ext event (RebroadcastRelays config) tr in
       connects (since tr (snd run)) = [""]
       ∧ length (fst run) = 1%nat
       ∧ ∃ err, net_RelayConnect ext tr "" = Some err
                ∧ run = (["failed to connect to relay : " +:+ Error err],
                         tr ++ [ARelayConnect "" (Some err)])).
Proof.
  intros Henv Hload Hdown.
  assert (RebroadcastRelays config = [""]) as Hrelays.
  { apply loadConfig_fields in Hload as (_ & _ & _ & _ & ->).
    unfold getEnv. by destruct Henv as [-> | ->]. }
  assert (∀ event tr, ∃ err,
            net_RelayConnect ext tr "" = Some err
            ∧ rebroadcastEvent ext event [""] tr
              = (["failed to connect to relay : " +:+ Error err],
                 tr ++ [ARelayConnect "" (Some err)])) as Hone.
  { intros event tr.
    destruct (net_RelayConnect ext tr "") as [err|] eqn:Hc;
      [|by destruct (Hdown tr)].
    exists err. split; [done|].
    by rewrite (rebroadcastEvent_unreachable_peer _ _ _ _ _ Hc). }
  split; [done|]. split; [|split].
  - intros ctx event tr m Hadm t Hs Hd. unfold AddEvent.
    destruct (admission ext config ctx event) as [[] msg]; [done|].
    unfold mixAndStoreEvent. fold t. rewrite Hs, Hd, Hrelays.
    by rewrite <-!app_assoc.
  - intros r tr event m Hm Hwl Hc t tr1 t' Hs Hs' Hd run tr2.
    subst run. rewrite createSubmitNoteHandler_open by done.
    fold t tr1. rewrite Hs.
    assert (mixAndStoreEvent ext event (RelayPrivateKey config)
              (RebroadcastRelays config) tr1 = (None, tr2)) as ->.
    { unfold mixAndStoreEvent. fold t'. rewrite Hs', Hd, Hrelays.
      subst tr2. by rewrite <-!app_assoc. }
    rewrite Hrelays. destruct (Hone event tr2) as (err & Hc' & ->).
    by exists err.
  - intros event tr run. subst run. rewrite Hrelays.
    destruct (Hone event tr) as (err & Hc & ->). simpl.
    rewrite since_app. repeat split. by exists err.
Qed.

Lemma rebroadcast_attempts_every_peer_witness :
  let ext := sample_ext true in
  let event := sample_event "relay" 100 1 "hello" in
  let relays := ["wss://down"; "wss://peer"; ""] in
  network_attempts ext event relays []
  = [ConnectFailed (ErrorString "connection refused"); Delivered;
     ConnectFailed (ErrorString "invalid relay URL")]
  ∧ fst (rebroadcastEvent ext event relays [])
    = ["failed to connect to relay wss://down: connection refused";
       "failed to connect to relay : invalid relay URL"]
  ∧ connects (since [] (snd (rebroadcastEvent ext event relays [])))
    = relays.
Proof.
  intros ext event relays.
  destruct (rebroadcast_attempts_every_peer ext event relays [])
    as (_ & _ & _ & Hconnects & Herrors & _).
  split; [vm_compute; reflexivity|].
  split; [rewrite Herrors; vm_compute; reflexivity | exact Hconnects].
Defined.

Lemma unset_rebroadcast_relays_one_empty_peer_witness :
  let env : Environ := {["RELAY_PRIVATE_KEY" := "sk"]} in
  let ext := sample_ext true in
  let event := sample_event "author" 50 1 "hello" in
  ∃ config m,
    loadConfig env = inr config
    ∧ RebroadcastRelays config = [""]
    ∧ AddEvent ext config sample_ctx event []
      = (Stored, [ATimeNow 100; ASaveEvent m None; ABroadcastEvent m;
                  AGoRebroadcast m [""]])
    ∧ rebroadcastEvent ext m (RebroadcastRelays config) []
      = (["failed to connect to relay : invalid relay URL"],
         [ARelayConnect "" (Some (ErrorString "invalid relay URL"))])
    ∧ Body (fst (createSubmitNoteHandler ext config (sample_post "hello") []))
      = renderResponse ["failed to connect to relay : invalid relay URL"].
Proof.
  intros env ext event.
  destruct (loadConfig env) as [e|config] eqn:Hload;
    [vm_compute in Hload; discriminate|].
  exists config.
  assert (env !! "REBROADCAST_RELAYS" = None
          ∨ env !! "REBROADCAST_RELAYS" = Some "") as Hunset
    by (left; vm_compute; reflexivity).
  assert (∀ tr, net_RelayConnect ext tr "" ≠ None) as Hdown
    by (intros tr; discriminate).
  destruct (unset_rebroadcast_relays_one_empty_peer ext env config Hunset
              Hload Hdown) as (Hrelays & Hadd & Hsubmit & Hrun).
  vm_compute in Hload. injection Hload as <-.
  destruct (Sign ext (mixedEvent event 100) "sk") as [e|m] eqn:Hm;
    [vm_compute in Hm; discriminate|].
  exists m.
  split; [reflexivity|]. split; [exact Hrelays|].
  split.
  { apply (Hadd sample_ctx event [] m); [vm_compute; reflexivity | exact Hm|].
    reflexivity. }
  split.
  { destruct (Hrun m []) as (_ & _ & err & Hc & ->).
    vm_compute in Hc. by injection Hc as <-. }
  destruct (Sign ext (synthesizedEvent "hello" 100) "sk") as [e|ev] eqn:Hs;
    [vm_compute in Hs; discriminate|].
  destruct (Sign ext (mixedEvent ev 101) "sk") as [e|m'] eqn:Hm'.
  { vm_compute in Hs. injection Hs as <-. vm_compute in Hm'. discriminate. }
  destruct (Hsubmit (sample_post "hello") [] ev m' eq_refl eq_refl
              ltac:(discriminate) Hs Hm' eq_refl) as (err & Hc & _ & ->).
  vm_compute in Hc. by injection Hc as <-.
Defined.
